(** * blockstore-s3: sharding strategies and the S3 block store

    A shallow embedding of [packages/blockstore-s3/dist/src/sharding.js],
    [packages/blockstore-s3/dist/src/index.js] and of the in-memory client
    double [s3-mock.js], followed by the properties of the specification
    that were checked against them.

    Conventions.
    - A JavaScript string is a [string]; its characters are the [ascii]
      code units, and the string primitives the code calls ([substring],
      [split], [pop], [endsWith]) are written out in [JsString] with the
      clamping ECMAScript prescribes.
    - A [Uint8Array] is a [list byte].
    - A JavaScript number holding an integer is a [Z].
    - [null] / [undefined] is [None].
    - A promise that rejects, or a function that throws, is [Throw e]. *)

From Stdlib Require Import ZArith Ascii String.
From Stdlib.Init Require Import Byte.
From stdpp Require Import base option list strings.

Local Open Scope Z_scope.

(* ===================================================================== *)
(** ** JavaScript string primitives *)
(* ===================================================================== *)

Module JsString.

Definition chars (s : string) : list ascii := list_ascii_of_string s.
Definition of_chars (l : list ascii) : string := string_of_list_ascii l.

(** [s.length] *)
Definition length (s : string) : Z := Z.of_nat (String.length s).

(** Index arguments of [substring] are clamped to [0 .. s.length]. *)
Definition clamp (len i : Z) : Z := Z.max 0 (Z.min i len).

(** [s.substring(indexStart, indexEnd)]; [indexEnd] omitted is [None].
    Both indices are clamped, and swapped when the first is larger. *)
Definition substring (s : string) (indexStart : Z) (indexEnd : option Z)
  : string :=
  let len := length s in
  let a := clamp len indexStart in
  let b := match indexEnd with Some e => clamp len e | None => len end in
  let lo := Z.min a b in
  let hi := Z.max a b in
  of_chars (take (Z.to_nat (hi - lo)) (drop (Z.to_nat lo) (chars s))).

(** [s.split(sep)] for a one-character separator: [cur] holds, reversed,
    the characters of the segment being read. *)
Fixpoint split_go (sep : ascii) (cur : list ascii) (s : string)
  : list string :=
  match s with
  | EmptyString => [of_chars (rev cur)]
  | String c s' =>
      if Ascii.eqb c sep
      then of_chars (rev cur) :: split_go sep [] s'
      else split_go sep (c :: cur) s'
  end.

Definition split (sep : ascii) (s : string) : list string :=
  split_go sep [] s.

(** [arr.pop()]: the last element, [undefined] on an empty array. *)
Definition pop {A} (arr : list A) : option A := last arr.

(** [s.endsWith(search)] *)
Definition endsWith (s search : string) : bool :=
  let start := length s - length search in
  if start <? 0 then false
  else bool_decide (drop (Z.to_nat start) (chars s) = chars search).

(** [arr[0]] *)
Definition first {A} (arr : list A) : option A := head arr.

(** The trailing [n] characters of a text, all of it when it is
    shorter: the first [n] read from the end. *)
Definition trailing (n : nat) (l : list ascii) : list ascii :=
  rev (take n (rev l)).

(** Does the character occur in the string? *)
Fixpoint mem (c : ascii) (s : string) : bool :=
  match s with
  | EmptyString => false
  | String c' s' => Ascii.eqb c' c || mem c s'
  end.

End JsString.

(* ===================================================================== *)
(** ** Thrown values *)
(* ===================================================================== *)

(** An error object as the code inspects it: [err.code], [err.statusCode]
    and [err.$metadata?.httpStatusCode] (the three fields the client
    double's [S3Error] declares), next to the standard [name] and
    [message]. *)
Record ErrorObject := mkError {
  e_name : string;
  e_message : string;
  e_code : option string;
  e_statusCode : option Z;
  e_httpStatusCode : option Z
}.

(** [new Error(message)]; [new Error(undefined)] has the empty message. *)
Definition new_Error (message : option string) : ErrorObject :=
  {| e_name := "Error";
     e_message := default "" message;
     e_code := None;
     e_statusCode := None;
     e_httpStatusCode := None |}.

(** Reading a property of [undefined] raises a [TypeError]. *)
Definition TypeError : ErrorObject :=
  {| e_name := "TypeError";
     e_message := "Cannot read properties of undefined";
     e_code := None;
     e_statusCode := None;
     e_httpStatusCode := None |}.

(** Modelled from the spec: [blockstore-core/errors] is not among the
    sources.  Its helpers [putFailedError], [notFoundError],
    [deleteFailedError] and [openFailedError] each take the cause and give
    an error of the kind the specification calls [WriteFailed], [NotFound],
    [DeleteFailed] and [OpenFailed], wrapping that cause.  [Native] is an
    error that reaches the caller as it was raised. *)
Inductive Exn : Type :=
| Native (e : ErrorObject)
| putFailedError (cause : Exn)
| notFoundError (cause : Exn)
| deleteFailedError (cause : Exn)
| openFailedError (cause : Exn).

(** [err.code] of a thrown value. *)
Definition Exn_code (e : Exn) : option string :=
  match e with
  | Native o => e_code o
  | putFailedError _ => Some "ERR_PUT_FAILED"
  | notFoundError _ => Some "ERR_NOT_FOUND"
  | deleteFailedError _ => Some "ERR_DELETE_FAILED"
  | openFailedError _ => Some "ERR_OPEN_FAILED"
  end.

(** The outcome of a call that may throw. *)
Inductive Result (A : Type) : Type :=
| Ok (a : A)
| Throw (e : Exn).
Arguments Ok {A} a.
Arguments Throw {A} e.

Definition Result_bind {A B} (r : Result A) (k : A -> Result B) : Result B :=
  match r with
  | Ok a => k a
  | Throw e => Throw e
  end.

(* ===================================================================== *)
(** ** Content identifiers and codecs (the multiformats interface) *)
(* ===================================================================== *)

(** [MultihashDigest]: hash function code, digest, and the binary form
    [bytes] that [encode] reads. *)
Record MultihashDigest := mkMultihash {
  mh_code : Z;
  mh_digest : list byte;
  mh_bytes : list byte
}.

(** [CID]: version, content codec and multihash. *)
Record CID := mkCID {
  cid_version : Z;
  cid_code : Z;
  cid_multihash : MultihashDigest
}.

(** [MultibaseCodec<string>]: [base.encoder.encode] and
    [base.decoder.decode]; the decoder throws on text it rejects. *)
Record MultibaseCodec := mkCodec {
  encoder_encode : list byte -> string;
  decoder_decode : string -> Result (list byte)
}.

(** The [ShardingStrategy] interface of [sharding.d.ts]. *)
Record ShardingStrategy := mkStrategy {
  extension : string;
  encode : CID -> string;
  decode : string -> Result CID
}.

(* ===================================================================== *)
(** ** sharding.js *)
(* ===================================================================== *)

Section Sharding.

(** [CID.decode] of multiformats: parse the binary form of an identifier. *)
Variable CID_decode : list byte -> Result CID.

(** The default codec, [base32upper]. *)
Variable base32upper : MultibaseCodec.

(** *** NextToLast *)

Record NextToLastInit := mkNextToLastInit {
  init_extension : option string;
  init_prefixLength : option Z;
  init_base : option MultibaseCodec
}.

Record NextToLast := mkNextToLast {
  ntl_extension : string;
  ntl_prefixLength : Z;
  ntl_base : MultibaseCodec
}.

(** [constructor(init = {})] *)
Definition NextToLast_new (init : NextToLastInit) : NextToLast :=
  {| ntl_extension := default ".data" (init_extension init);
     ntl_prefixLength := default 2 (init_prefixLength init);
     ntl_base := default base32upper (init_base init) |}.

(** [str] of [encode]: the codec's text for the multihash bytes. *)
Definition NextToLast_token (this : NextToLast) (cid : CID) : string :=
  encoder_encode (ntl_base this) (mh_bytes (cid_multihash cid)).

(** [prefix] of [encode]:
    [str.substring(str.length - this.prefixLength)]. *)
Definition NextToLast_prefix (this : NextToLast) (cid : CID) : string :=
  let str := NextToLast_token this cid in
  JsString.substring str (JsString.length str - ntl_prefixLength this) None.

Definition NextToLast_encode (this : NextToLast) (cid : CID) : string :=
  let str := NextToLast_token this cid in
  let prefix := NextToLast_prefix this cid in
  prefix +:+ "/" +:+ str +:+ ntl_extension this.

(** [fileName] after the extension has been stripped, [None] where the
    code throws [Invalid path]. *)
Definition fileName_of (ext : string) (str : string) : option string :=
  match JsString.pop (JsString.split "/"%char str) with
  | None => None
  | Some fileName =>
      if JsString.endsWith fileName ext
      then Some (JsString.substring fileName 0
                   (Some (JsString.length fileName - JsString.length ext)))
      else Some fileName
  end.

Definition NextToLast_decode (this : NextToLast) (str : string)
  : Result CID :=
  match fileName_of (ntl_extension this) str with
  | None => Throw (Native (new_Error (Some "Invalid path")))
  | Some fileName =>
      Result_bind (decoder_decode (ntl_base this) fileName) CID_decode
  end.

(** *** FlatDirectory *)

Record FlatDirectory := mkFlatDirectory {
  flat_extension : string;
  flat_base : MultibaseCodec
}.

(** [constructor(init = {})]; [prefixLength] of the init is not read. *)
Definition FlatDirectory_new (init : NextToLastInit) : FlatDirectory :=
  {| flat_extension := default ".data" (init_extension init);
     flat_base := default base32upper (init_base init) |}.

Definition FlatDirectory_encode (this : FlatDirectory) (cid : CID)
  : string :=
  let str := encoder_encode (flat_base this) (mh_bytes (cid_multihash cid)) in
  str +:+ flat_extension this.

Definition FlatDirectory_decode (this : FlatDirectory) (str : string)
  : Result CID :=
  match fileName_of (flat_extension this) str with
  | None => Throw (Native (new_Error (Some "Invalid path")))
  | Some fileName =>
      Result_bind (decoder_decode (flat_base this) fileName) CID_decode
  end.

(** Both classes implement [ShardingStrategy]. *)
Definition NextToLast_strategy (this : NextToLast) : ShardingStrategy :=
  {| extension := ntl_extension this;
     encode := NextToLast_encode this;
     decode := NextToLast_decode this |}.

Definition FlatDirectory_strategy (this : FlatDirectory) : ShardingStrategy :=
  {| extension := flat_extension this;
     encode := FlatDirectory_encode this;
     decode := FlatDirectory_decode this |}.

End Sharding.

(* ===================================================================== *)
(** ** The object-store client, as index.js uses it *)
(* ===================================================================== *)

(** The commands [index.js] constructs, with the input fields it sets. *)
Inductive Command : Type :=
| PutObjectCommand (Bucket Key : string) (Body : list byte)
| CreateBucketCommand (Bucket : string)
| GetObjectCommand (Bucket Key : string)
| HeadObjectCommand (Bucket Key : string)
| DeleteObjectCommand (Bucket Key : string)
| ListObjectsV2Command (Bucket : string) (Prefix StartAfter : option string).

(** The transport shapes of [data.Body] that [get] tells apart; a stream is
    given by what draining it with [toBuffer] produces. *)
Inductive BodyShape : Type :=
| BodyUint8Array (b : list byte)
| BodyString (s : string)
| BodyBlob (buf : list byte)
| BodyStream (drained : ErrorObject + list byte).

(** An entry [d] of [data.Contents]. *)
Record Item := mkItem { Key : option string }.

(** The fields of a response that the code reads. *)
Record Output := mkOutput {
  Body : option BodyShape;
  Contents : option (list Item);
  IsTruncated : option bool
}.

(** [{}] *)
Definition emptyOutput : Output :=
  {| Body := None; Contents := None; IsTruncated := None |}.

(** A settled promise of the client. *)
Inductive Settled (A : Type) : Type :=
| Resolve (a : A)
| Reject (err : ErrorObject).
Arguments Resolve {A} a.
Arguments Reject {A} err.

Record AbortSignal := mkSignal { aborted : bool }.
Record AbortOptions := mkOptions { signal : option AbortSignal }.

(** [options?.signal] *)
Definition signal_of (options : option AbortOptions) : option AbortSignal :=
  match options with
  | Some o => signal o
  | None => None
  end.

(** [options?.signal?.aborted === true] *)
Definition is_aborted (options : option AbortOptions) : bool :=
  match signal_of options with
  | Some s => aborted s
  | None => false
  end.

(** [s3.send(command, { abortSignal })] over the state [W] of the remote
    store; the response may be [null]. *)
Record S3 (W : Type) := mkS3 {
  send : Command -> option AbortSignal -> W -> Settled (option Output) * W
}.
Arguments send {W} _ _ _ _.

(** [err.statusCode === n] and [err.$metadata?.httpStatusCode === n] *)
Definition statusCode_is (err : ErrorObject) (n : Z) : bool :=
  bool_decide (e_statusCode err = Some n).
Definition httpStatusCode_is (err : ErrorObject) (n : Z) : bool :=
  bool_decide (e_httpStatusCode err = Some n).

(* ===================================================================== *)
(** ** index.js *)
(* ===================================================================== *)

Record S3BlockstoreInit := mkInit {
  init_createIfMissing : option bool;
  init_prefix : option string;
  init_shardingStrategy : option ShardingStrategy
}.

Record S3Blockstore (W : Type) := mkStore {
  createIfMissing : bool;
  s3 : S3 W;
  bucket : string;
  prefix : option string;
  shardingStrategy : ShardingStrategy
}.
Arguments createIfMissing {W} _.
Arguments s3 {W} _.
Arguments bucket {W} _.
Arguments prefix {W} _.
Arguments shardingStrategy {W} _.

(** An entry yielded by [getAll]. *)
Record Pair := mkPair { cid : CID; block : list byte }.

(** How a run of the [getAll] generator ends: it returns, it throws, or it
    is still fetching pages when the bound on the number of listing
    requests is reached. *)
Inductive Completion : Type :=
| Returned
| Threw (e : Exn)
| Pending.

Section Blockstore.

Context {W : Type}.

Variable CID_decode : list byte -> Result CID.
Variable base32upper : MultibaseCodec.

(** [fromString] of [uint8arrays]. *)
Variable unint8arrayFromString : string -> list byte.

(** [constructor(s3, bucket, init)] *)
Definition S3Blockstore_new (s3 : option (S3 W)) (bucket : option string)
    (init : option S3BlockstoreInit) : Result (S3Blockstore W) :=
  match s3 with
  | None => Throw (Native (new_Error (Some
      "An S3 instance must be supplied. See the blockstore-s3 README for examples.")))
  | Some s3 =>
      match bucket with
      | None => Throw (Native (new_Error (Some
          "An bucket must be supplied. See the blockstore-s3 README for examples.")))
      | Some bucket =>
          Ok {| s3 := s3;
                bucket := bucket;
                createIfMissing :=
                  default false (init ≫= init_createIfMissing);
                prefix :=
                  match init ≫= init_prefix with
                  | Some p => Some (p +:+ "/")
                  | None => None
                  end;
                shardingStrategy :=
                  default
                    (NextToLast_strategy CID_decode
                       (NextToLast_new base32upper
                          (mkNextToLastInit None None None)))
                    (init ≫= init_shardingStrategy) |}
      end
  end.

(** A template literal renders [null] as the text [null]. *)
Definition template (v : option string) : string := default "null" v.

(** [`${this.prefix}${this.shardingStrategy.encode(key)}`] *)
Definition objectKey (this : S3Blockstore W) (key : CID) : string :=
  template (prefix this) +:+ encode (shardingStrategy this) key.

Definition put (this : S3Blockstore W) (key : CID) (val : list byte)
    (options : option AbortOptions) (w : W) : Result CID * W :=
  match send (s3 this)
          (PutObjectCommand (bucket this) (objectKey this key) val)
          (signal_of options) w with
  | (Resolve _, w') => (Ok key, w')
  | (Reject err, w') => (Throw (putFailedError (Native err)), w')
  end.

(** The [catch] clause of [get]. *)
Definition get_catch (err : ErrorObject) : Exn :=
  if statusCode_is err 404 then notFoundError (Native err) else Native err.

(** The [try] block of [get] after the response has arrived. *)
Definition get_body (data : option Output) : ErrorObject + list byte :=
  match data with
  | None => inl TypeError
  | Some data =>
      match Body data with
      | None => inl (new_Error (Some "Response had no body"))
      | Some (BodyUint8Array b) => inr b
      | Some (BodyString s) => inr (unint8arrayFromString s)
      | Some (BodyBlob buf) => inr buf
      | Some (BodyStream drained) => drained
      end
  end.


Definition get (this : S3Blockstore W) (key : CID)
    (options : option AbortOptions) (w : W) : Result (list byte) * W :=
  match send (s3 this)
          (GetObjectCommand (bucket this) (objectKey this key))
          (signal_of options) w with
  | (Resolve data, w') =>
      match get_body data with
      | inr b => (Ok b, w')
      | inl err => (Throw (get_catch err), w')
      end
  | (Reject err, w') => (Throw (get_catch err), w')
  end.

Definition has (this : S3Blockstore W) (key : CID)
    (options : option AbortOptions) (w : W) : Result bool * W :=
  match send (s3 this)
          (HeadObjectCommand (bucket this) (objectKey this key))
          (signal_of options) w with
  | (Resolve _, w') => (Ok true, w')
  | (Reject err, w') =>
      if httpStatusCode_is err 404 then (Ok false, w')
      else if httpStatusCode_is err 403 then (Ok false, w')
      else (Throw (Native err), w')
  end.

Definition delete (this : S3Blockstore W) (key : CID)
    (options : option AbortOptions) (w : W) : Result unit * W :=
  match send (s3 this)
          (DeleteObjectCommand (bucket this) (objectKey this key))
          (signal_of options) w with
  | (Resolve _, w') => (Ok tt, w')
  | (Reject err, w') => (Throw (deleteFailedError (Native err)), w')
  end.

(** The [for (const d of data.Contents)] loop of [getAll]: the entries
    yielded, and the error that ended the loop, if any. *)
Fixpoint getAll_contents (this : S3Blockstore W)
    (options : option AbortOptions) (ds : list Item) (w : W)
  : list Pair * option Exn * W :=
  match ds with
  | [] => ([], None, w)
  | d :: ds' =>
      match Key d with
      | None => ([], Some (Native (new_Error (Some "Not found"))), w)
      | Some k =>
          match decode (shardingStrategy this) k with
          | Throw e => ([], Some e, w)
          | Ok cid =>
              match get this cid options w with
              | (Throw e, w') => ([], Some e, w')
              | (Ok block, w') =>
                  let '(ps, r, w'') := getAll_contents this options ds' w' in
                  ({| cid := cid; block := block |} :: ps, r, w'')
              end
          end
      end
  end.

(** The [while (true)] loop of [getAll], inside the [try]; [fuel] bounds
    the number of listing requests and [StartAfter] is
    [params.StartAfter]. *)
Fixpoint getAll_loop (fuel : nat) (this : S3Blockstore W)
    (options : option AbortOptions) (StartAfter : option string) (w : W)
  : list Pair * Completion * W :=
  match fuel with
  | O => ([], Pending, w)
  | S fuel' =>
      match send (s3 this)
              (ListObjectsV2Command (bucket this) (prefix this) StartAfter)
              (signal_of options) w with
      | (Reject err, w') => ([], Threw (Native err), w')
      | (Resolve data, w') =>
          if is_aborted options then ([], Returned, w')
          else
            match data ≫= Contents with
            | None => ([], Threw (Native (new_Error (Some "Not found"))), w')
            | Some ds =>
                match getAll_contents this options ds w' with
                | (ps, Some e, w'') => (ps, Threw e, w'')
                | (ps, None, w'') =>
                    if bool_decide (data ≫= IsTruncated = Some true)
                    then
                      match last ds with
                      | None => (ps, Threw (Native TypeError), w'')
                      | Some d =>
                          let '(ps', c, w''') :=
                            getAll_loop fuel' this options (Key d) w'' in
                          (ps ++ ps', c, w''')
                      end
                    else (ps, Returned, w'')
                end
            end
      end
  end.

(** The [catch] clause of [getAll]: [throw new Error(err.code)]. *)
Definition getAll_catch (c : Completion) : Completion :=
  match c with
  | Threw e => Threw (Native (new_Error (Exn_code e)))
  | c => c
  end.

Definition getAll (fuel : nat) (this : S3Blockstore W)
    (options : option AbortOptions) (w : W)
  : list Pair * Completion * W :=
  let '(ps, c, w') := getAll_loop fuel this options None w in
  (ps, getAll_catch c, w').


Definition open (this : S3Blockstore W) (options : option AbortOptions)
    (w : W) : Result unit * W :=
  match send (s3 this) (HeadObjectCommand (bucket this) "")
          (signal_of options) w with
  | (Resolve _, w') => (Ok tt, w')
  | (Reject err, w') =>
      if negb (statusCode_is err 404) then
        if createIfMissing this then
          match send (s3 this) (CreateBucketCommand (bucket this))
                  (signal_of options) w' with
          | (Resolve _, w'') => (Ok tt, w'')
          | (Reject err', w'') => (Throw (Native err'), w'')
          end
        else (Throw (openFailedError (Native err)), w')
      else (Ok tt, w')
  end.

End Blockstore.

(* ===================================================================== *)
(** ** s3-mock.js *)
(* ===================================================================== *)

Module S3Mock.

(** [new S3Error(message, code)] *)
Definition S3Error (message : string) (code : option Z) : ErrorObject :=
  {| e_name := "Error";
     e_message := message;
     e_code := Some message;
     e_statusCode := code;
     e_httpStatusCode := Some (default 200 code) |}.

(** [storage = new Map()]: keys are unique and kept in insertion order,
    which is the order [storage.keys()] lists them in. *)
Definition Storage : Type := list (string * list byte).

Definition Map_has (k : string) (m : Storage) : bool :=
  existsb (fun kv => String.eqb (fst kv) k) m.

Fixpoint Map_get (k : string) (m : Storage) : option (list byte) :=
  match m with
  | [] => None
  | (k', v) :: m' => if String.eqb k' k then Some v else Map_get k m'
  end.

Fixpoint Map_set (k : string) (v : list byte) (m : Storage) : Storage :=
  match m with
  | [] => [(k, v)]
  | (k', v') :: m' =>
      if String.eqb k' k then (k, v) :: m' else (k', v') :: Map_set k v m'
  end.

Definition Map_delete (k : string) (m : Storage) : Storage :=
  List.filter (fun kv => negb (String.eqb (fst kv) k)) m.

Definition Map_keys (m : Storage) : list string := List.map fst m.

(** [k.startsWith(p)] *)
Definition startsWith (k p : string) : bool := String.prefix p k.

(** The handler that replaces [s3.send]; it does not look at the options. *)
Definition mock_send (command : Command) (_ : option AbortSignal)
    (storage : Storage) : Settled (option Output) * Storage :=
  match command with
  | PutObjectCommand _ Key Body =>
      (Resolve (Some emptyOutput), Map_set Key Body storage)
  | HeadObjectCommand _ Key =>
      if Map_has Key storage then (Resolve (Some emptyOutput), storage)
      else (Reject (S3Error "NotFound" (Some 404)), storage)
  | GetObjectCommand _ Key =>
      if negb (Map_has Key storage)
      then (Reject (S3Error "NotFound" (Some 404)), storage)
      else (Resolve (Some {| Body := BodyUint8Array <$> Map_get Key storage;
                             Contents := None;
                             IsTruncated := None |}), storage)
  | DeleteObjectCommand _ Key =>
      (Resolve (Some emptyOutput), Map_delete Key storage)
  | ListObjectsV2Command _ Prefix _ =>
      (Resolve (Some {| Body := None;
                        Contents := Some
                          (List.map (fun k => {| Key := Some k |})
                             (List.filter
                                (fun k => startsWith k (default "" Prefix))
                                (Map_keys storage)));
                        IsTruncated := None |}), storage)
  | CreateBucketCommand _ =>
      (Reject (S3Error "UnknownCommand" (Some 400)), storage)
  end.

Definition s3Mock : S3 Storage := {| send := mock_send |}.

End S3Mock.

(* ===================================================================== *)
(** ** Sample collaborators, for the examples *)
(* ===================================================================== *)

Module Sample.

(** A codec that writes every byte as the character with that code. *)
Definition latin1 : MultibaseCodec :=
  {| encoder_encode := string_of_list_byte;
     decoder_decode := fun s => Ok (list_byte_of_string s) |}.

Definition byte_val (b : byte) : Z := Z.of_N (N_of_ascii (ascii_of_byte b)).

(** An unsigned LEB128 number at the head of [bs], and what follows it. *)
Fixpoint varint (bs : list byte) (shift acc : Z) : option (Z * list byte) :=
  match bs with
  | [] => None
  | b :: bs' =>
      let acc' := acc + Z.shiftl (Z.land (byte_val b) 127) shift in
      if byte_val b <? 128 then Some (acc', bs')
      else varint bs' (shift + 7) acc'
  end.

Definition parse_error (message : string) : Exn :=
  Native (new_Error (Some message)).

(** A multihash in binary form: code, digest size, digest. *)
Definition parse_multihash (bs : list byte) : Result MultihashDigest :=
  match varint bs 0 0 with
  | None => Throw (parse_error "Could not decode varint")
  | Some (code, r1) =>
      match varint r1 0 0 with
      | None => Throw (parse_error "Could not decode varint")
      | Some (size, digest) =>
          if Z.of_nat (length digest) =? size
          then Ok {| mh_code := code; mh_digest := digest; mh_bytes := bs |}
          else Throw (parse_error "Incorrect length")
      end
  end.

(** The binary form of an identifier, after the layout multiformats
    documents for [CID.decode]: bytes that open with [0x12] are a
    version 0 identifier (dag-pb, code [0x70], over the multihash that
    starts right there); otherwise a version number, a content codec and
    the multihash follow one another. *)
Definition sample_CID_decode (bs : list byte) : Result CID :=
  match varint bs 0 0 with
  | None => Throw (parse_error "Could not decode varint")
  | Some (first, r1) =>
      if first =? 18 then
        Result_bind (parse_multihash bs)
          (fun mh => Ok {| cid_version := 0; cid_code := 112;
                           cid_multihash := mh |})
      else
        match varint r1 0 0 with
        | None => Throw (parse_error "Could not decode varint")
        | Some (codec, r2) =>
            if first =? 1 then
              Result_bind (parse_multihash r2)
                (fun mh => Ok {| cid_version := 1; cid_code := codec;
                                 cid_multihash := mh |})
            else if first =? 0 then
              Result_bind (parse_multihash r2)
                (fun mh => Ok {| cid_version := 0; cid_code := 112;
                                 cid_multihash := mh |})
            else Throw (parse_error "Invalid CID version")
        end
  end.

(** A sha2-256 multihash: [0x12 0x20] and a 32-byte digest. *)
Definition digest32 : list byte := replicate 32 x41.
Definition sha256_multihash : MultihashDigest :=
  {| mh_code := 18; mh_digest := digest32;
     mh_bytes := x12 :: x20 :: digest32 |}.

(** Three identifiers of the same content hash: CIDv0, CIDv1 with the
    [raw] codec ([0x55]) and CIDv1 with [dag-pb] ([0x70]). *)
Definition cid_v0 : CID :=
  {| cid_version := 0; cid_code := 112; cid_multihash := sha256_multihash |}.
Definition cid_v1_raw : CID :=
  {| cid_version := 1; cid_code := 85; cid_multihash := sha256_multihash |}.
Definition cid_v1_dagpb : CID :=
  {| cid_version := 1; cid_code := 112; cid_multihash := sha256_multihash |}.

(** An identifier whose multihash bytes the [latin1] codec writes as
    [ABCDEFGH]. *)
Definition cid_ABCDEFGH : CID :=
  {| cid_version := 1; cid_code := 85;
     cid_multihash :=
       {| mh_code := 65; mh_digest := list_byte_of_string "CDEFGH";
          mh_bytes := list_byte_of_string "ABCDEFGH" |} |}.

Definition nextToLast : NextToLast :=
  {| ntl_extension := ".data"; ntl_prefixLength := 2; ntl_base := latin1 |}.
Definition flatDirectory : FlatDirectory :=
  {| flat_extension := ".data"; flat_base := latin1 |}.

Definition notFound404 : ErrorObject := S3Mock.S3Error "NotFound" (Some 404).
Definition forbidden403 : ErrorObject := S3Mock.S3Error "Forbidden" (Some 403).
Definition internal500 : ErrorObject :=
  S3Mock.S3Error "InternalError" (Some 500).

(** The error a client raises for a request whose signal is aborted. *)
Definition abortError : ErrorObject :=
  {| e_name := "AbortError"; e_message := "Request aborted";
     e_code := None; e_statusCode := None; e_httpStatusCode := None |}.

(** A client that answers every command the same way. *)
Definition constant_client (r : Settled (option Output)) : S3 unit :=
  {| send := fun _ _ w => (r, w) |}.

(** A client that answers by [answer] and keeps the list of the commands
    it was sent, latest last. *)
Definition recording (answer : Command -> Settled (option Output))
  : S3 (list Command) :=
  {| send := fun c _ log => (answer c, log ++ [c]) |}.

(** A client that honours the signal: a request made with an aborted
    signal is rejected with [abortError]; any other request is answered
    by [inner]. *)
Definition abortable {W} (inner : S3 W) : S3 W :=
  {| send := fun c sig w =>
       match sig with
       | Some s => if aborted s then (Reject abortError, w)
                   else send inner c sig w
       | None => send inner c sig w
       end |}.

Definition cancelled : option AbortOptions :=
  Some {| signal := Some {| aborted := true |} |}.

(** A store on [client] with the sample prefix-shard strategy. *)
Definition store_on {W} (client : S3 W) (create : bool) : S3Blockstore W :=
  {| createIfMissing := create;
     s3 := client;
     bucket := "test";
     prefix := None;
     shardingStrategy := NextToLast_strategy sample_CID_decode nextToLast |}.

(** A stand-in for [fromString] of [uint8arrays]: one byte per character. *)
Definition fromString (s : string) : list byte := list_byte_of_string s.

(** What [get] throws for the error by which the in-memory client answers
    a read of a key that is not stored. *)
Definition mock_NotFound : Exn :=
  notFoundError (Native notFound404).

(** What the in-memory client lists for a store: the stored keys that
    start with the prefix of the store, as they are ordered. *)
Definition listed (store : S3Blockstore S3Mock.Storage)
    (m : S3Mock.Storage) : list Item :=
  List.map (fun k => {| Key := Some k |})
    (List.filter (fun k => S3Mock.startsWith k (default "" (prefix store)))
       (S3Mock.Map_keys m)).

(** A client without state that answers by [answer]. *)
Definition scripted (answer : Command -> Settled (option Output)) : S3 unit :=
  {| send := fun c _ w => (answer c, w) |}.

(** A second CIDv0 identifier, of another content hash. *)
Definition cid_v0_b : CID :=
  {| cid_version := 0; cid_code := 112;
     cid_multihash :=
       {| mh_code := 18; mh_digest := replicate 32 x42;
          mh_bytes := x12 :: x20 :: replicate 32 x42 |} |}.

(** A listing in two pages: the first names the object of [cid_v0] and
    says more follows, the one after that key names the object of
    [cid_v0_b]; every read is answered by the same one-byte body. *)
Definition two_pages (c : Command) : Settled (option Output) :=
  match c with
  | ListObjectsV2Command _ _ None =>
      Resolve (Some {| Body := None;
                       Contents := Some [ {| Key := Some
                         (NextToLast_encode nextToLast cid_v0) |} ];
                       IsTruncated := Some true |})
  | ListObjectsV2Command _ _ (Some _) =>
      Resolve (Some {| Body := None;
                       Contents := Some [ {| Key := Some
                         (NextToLast_encode nextToLast cid_v0_b) |} ];
                       IsTruncated := Some false |})
  | _ =>
      Resolve (Some {| Body := Some (BodyUint8Array [x01]);
                       Contents := None; IsTruncated := None |})
  end.

(** A store on the in-memory client with the sample flat strategy. *)
Definition flat_store (prefix : option string)
  : S3Blockstore S3Mock.Storage :=
  {| createIfMissing := false;
     s3 := S3Mock.s3Mock;
     bucket := "test";
     prefix := prefix;
     shardingStrategy :=
       FlatDirectory_strategy sample_CID_decode flatDirectory |}.

(** One response that serves both as a listing page that names the object
    of [cid_v0] and says more pages follow, and as the body of that
    object. *)
Definition endless_page : Settled (option Output) :=
  Resolve (Some {| Body := Some (BodyUint8Array [x01]);
                   Contents :=
                     Some [ {| Key := Some (NextToLast_encode nextToLast
                                              cid_v0) |} ];
                   IsTruncated := Some true |}).

End Sample.

(* ===================================================================== *)
(** * Properties *)
(* ===================================================================== *)

(** ** Facts about the string primitives *)

Module JsStringFacts.
Import JsString.

Lemma of_chars_chars (s : string) : of_chars (chars s) = s.
Proof. apply string_of_list_ascii_of_string. Qed.

Lemma chars_of_chars (l : list ascii) : chars (of_chars l) = l.
Proof. apply list_ascii_of_string_of_list_ascii. Qed.

Lemma chars_inj (s t : string) : chars s = chars t -> s = t.
Proof.
  intros E. rewrite <- (of_chars_chars s), <- (of_chars_chars t).
  now rewrite E.
Qed.

Lemma chars_app (a b : string) : chars (a +:+ b) = chars a ++ chars b.
Proof. induction a as [|c a IH]; simpl; [reflexivity | now rewrite IH]. Qed.

Lemma length_chars (s : string) : length s = Z.of_nat (List.length (chars s)).
Proof.
  unfold length. f_equal.
  induction s as [|c s IH]; simpl; [reflexivity | now rewrite IH].
Qed.

Lemma length_nonneg (s : string) : 0 <= length s.
Proof. unfold length. lia. Qed.

Lemma length_app (a b : string) : length (a +:+ b) = length a + length b.
Proof. rewrite !length_chars, chars_app, List.length_app. lia. Qed.

(** [split] never gives the empty array: there is always a last segment. *)
Lemma split_go_last (sep : ascii) (s : string) :
  forall cur, is_Some (last (split_go sep cur s)).
Proof.
  induction s as [|c s IH]; intros cur; simpl.
  - eauto.
  - destruct (Ascii.eqb c sep).
    + rewrite last_cons. destruct (IH []) as [y ->]. eauto.
    + apply IH.
Qed.

(** A string without the separator is its own single segment. *)
Lemma split_go_no_sep (sep : ascii) (t : string) :
  mem sep t = false ->
  forall cur, split_go sep cur t = [of_chars (rev cur ++ chars t)].
Proof.
  induction t as [|c t IH]; simpl; intros Hm cur.
  - now rewrite app_nil_r.
  - apply orb_false_iff in Hm as [Hc Ht]. rewrite Hc, (IH Ht). simpl.
    now rewrite <- app_assoc.
Qed.

(** Everything up to a separator is dropped from the last segment. *)
Lemma split_go_last_app (sep : ascii) (a b : string) :
  forall cur,
    last (split_go sep cur (a +:+ String sep b)) = last (split_go sep [] b).
Proof.
  induction a as [|c a IH]; intros cur; simpl.
  - rewrite Ascii.eqb_refl, last_cons.
    now destruct (split_go_last sep b []) as [y ->].
  - destruct (Ascii.eqb c sep).
    + rewrite last_cons, (IH []).
      now destruct (split_go_last sep b []) as [y ->].
    + apply IH.
Qed.

Lemma pop_split_no_sep (sep : ascii) (t : string) :
  mem sep t = false -> pop (split sep t) = Some t.
Proof.
  intros Hm. unfold pop, split. rewrite (split_go_no_sep _ _ Hm). simpl.
  now rewrite of_chars_chars.
Qed.

Lemma pop_split_app (sep : ascii) (a t : string) :
  mem sep t = false -> pop (split sep (a +:+ String sep t)) = Some t.
Proof.
  intros Hm. unfold pop, split. rewrite split_go_last_app.
  now apply pop_split_no_sep.
Qed.

Lemma endsWith_app (t ext : string) : endsWith (t +:+ ext) ext = true.
Proof.
  unfold endsWith. rewrite length_app.
  pose proof (length_nonneg t) as Ht.
  replace (length t + length ext - length ext) with (length t) by lia.
  destruct (Z.ltb_spec (length t) 0) as [?|_]; [lia|].
  apply bool_decide_eq_true. rewrite chars_app, length_chars, Nat2Z.id.
  apply drop_app_length.
Qed.

Lemma substring_strip (t ext : string) :
  substring (t +:+ ext) 0 (Some (length (t +:+ ext) - length ext)) = t.
Proof.
  unfold substring, clamp. rewrite length_app.
  pose proof (length_nonneg t) as Ht. pose proof (length_nonneg ext) as He.
  replace (length t + length ext - length ext) with (length t) by lia.
  rewrite (Z.min_l 0) by lia. rewrite (Z.max_l 0 0) by lia.
  rewrite (Z.min_l (length t)) by lia. rewrite (Z.max_r 0 (length t)) by lia.
  rewrite (Z.min_l 0) by lia. rewrite (Z.max_r 0 (length t)) by lia.
  rewrite Z.sub_0_r. rewrite chars_app, length_chars, Nat2Z.id.
  change (Z.to_nat 0) with 0%nat. rewrite drop_0, take_app_length. apply of_chars_chars.
Qed.

Lemma trailing_drop (n : nat) (l : list ascii) :
  trailing n l = drop (List.length l - n) l.
Proof.
  unfold trailing. now rewrite List.firstn_rev, List.rev_involutive.
Qed.

(** [str.substring(str.length - p)] is the tail of [str] of length [p]. *)
Lemma substring_tail (s : string) (p : Z) :
  0 <= p ->
  chars (substring s (length s - p) None) = trailing (Z.to_nat p) (chars s).
Proof.
  intros Hp. unfold substring, clamp. rewrite chars_of_chars, trailing_drop.
  rewrite length_chars. set (n := List.length (chars s)).
  rewrite (Z.min_l (Z.of_nat n - p)) by lia.
  rewrite Z.min_l by lia. rewrite Z.max_r by lia.
  replace (Z.to_nat (Z.max 0 (Z.of_nat n - p))) with (n - Z.to_nat p)%nat
    by lia.
  apply take_ge. rewrite length_drop. lia.
Qed.

Lemma mem_chars (c : ascii) (s : string) :
  mem c s = false <-> c ∉ chars s.
Proof.
  induction s as [|c' s IH]; simpl.
  - split; [intros _; apply not_elem_of_nil | reflexivity].
  - rewrite orb_false_iff, IH, not_elem_of_cons.
    destruct (Ascii.eqb_spec c' c) as [->|Hne]; split; intros [? ?];
      try discriminate; try congruence; split; congruence.
Qed.

(** The first segment ends at the first separator. *)
Lemma split_go_first (sep : ascii) (a b : string) :
  mem sep a = false ->
  forall cur,
    first (split_go sep cur (a +:+ String sep b)) =
    Some (of_chars (rev cur ++ chars a)).
Proof.
  induction a as [|c a IH]; simpl; intros Hm cur.
  - now rewrite Ascii.eqb_refl, app_nil_r.
  - apply orb_false_iff in Hm as [Hc Ha]. rewrite Hc, (IH Ha). simpl.
    now rewrite <- app_assoc.
Qed.

End JsStringFacts.

(** ** Facts about the two strategies *)

Section ShardingFacts.

Variable CID_decode : list byte -> Result CID.

Lemma fileName_of_path (ext a t : string) :
  JsString.mem "/" (t +:+ ext) = false ->
  fileName_of ext (a +:+ "/" +:+ t +:+ ext) = Some t.
Proof.
  intros Hm. unfold fileName_of.
  change (a +:+ "/" +:+ t +:+ ext) with (a +:+ String "/" (t +:+ ext)).
  rewrite (JsStringFacts.pop_split_app _ _ _ Hm).
  rewrite JsStringFacts.endsWith_app.
  now rewrite JsStringFacts.substring_strip.
Qed.

Lemma fileName_of_flat (ext t : string) :
  JsString.mem "/" (t +:+ ext) = false ->
  fileName_of ext (t +:+ ext) = Some t.
Proof.
  intros Hm. unfold fileName_of.
  rewrite (JsStringFacts.pop_split_no_sep _ _ Hm).
  rewrite JsStringFacts.endsWith_app.
  now rewrite JsStringFacts.substring_strip.
Qed.

Lemma fileName_of_total (ext str : string) : is_Some (fileName_of ext str).
Proof.
  unfold fileName_of, JsString.pop, JsString.split.
  destruct (JsStringFacts.split_go_last "/" str []) as [f ->].
  destruct (JsString.endsWith f ext); eauto.
Qed.

Lemma NextToLast_prefix_chars (this : NextToLast) (x : CID) :
  0 <= ntl_prefixLength this ->
  JsString.chars (NextToLast_prefix this x) =
  JsString.trailing (Z.to_nat (ntl_prefixLength this))
    (JsString.chars (NextToLast_token this x)).
Proof. intros Hp. now apply JsStringFacts.substring_tail. Qed.

Lemma NextToLast_prefix_length (this : NextToLast) (x : CID) :
  0 <= ntl_prefixLength this ->
  JsString.length (NextToLast_prefix this x) =
  Z.min (ntl_prefixLength this) (JsString.length (NextToLast_token this x)).
Proof.
  intros Hp. rewrite !JsStringFacts.length_chars.
  rewrite (NextToLast_prefix_chars _ _ Hp), JsStringFacts.trailing_drop.
  rewrite length_drop. lia.
Qed.

Lemma NextToLast_prefix_no_slash (this : NextToLast) (x : CID) :
  0 <= ntl_prefixLength this ->
  JsString.mem "/" (NextToLast_token this x) = false ->
  JsString.mem "/" (NextToLast_prefix this x) = false.
Proof.
  intros Hp. rewrite !JsStringFacts.mem_chars.
  rewrite (NextToLast_prefix_chars _ _ Hp), JsStringFacts.trailing_drop.
  intros Hn Hin. apply Hn. revert Hin. apply subseteq_drop.
Qed.

End ShardingFacts.

(* ===================================================================== *)
(** ** Sharding strategy *)
(* ===================================================================== *)

(** C1, as stated, fails.  [encode] writes only the multihash of the
    identifier, so the CIDv1/raw and the CIDv1/dag-pb identifier of one
    sha2-256 hash get the same path, and whatever [CID.decode] and codec a
    strategy is built from, [decode] cannot give both of them back; this
    holds for the prefix-shard and for the flat variant.  With the sample
    parser and codec, the CIDv1/raw identifier comes back as the CIDv0
    one. *)
Lemma roundtrip_fails_for_CIDv1 :
  (~ exists (CID_decode : list byte -> Result CID) (this : NextToLast),
       NextToLast_decode CID_decode this
         (NextToLast_encode this Sample.cid_v1_raw) = Ok Sample.cid_v1_raw /\
       NextToLast_decode CID_decode this
         (NextToLast_encode this Sample.cid_v1_dagpb) = Ok Sample.cid_v1_dagpb)
  /\
  (~ exists (CID_decode : list byte -> Result CID) (this : FlatDirectory),
       FlatDirectory_decode CID_decode this
         (FlatDirectory_encode this Sample.cid_v1_raw) = Ok Sample.cid_v1_raw /\
       FlatDirectory_decode CID_decode this
         (FlatDirectory_encode this Sample.cid_v1_dagpb)
         = Ok Sample.cid_v1_dagpb)
  /\
  NextToLast_decode Sample.sample_CID_decode Sample.nextToLast
    (NextToLast_encode Sample.nextToLast Sample.cid_v1_raw) = Ok Sample.cid_v0
  /\
  Sample.cid_v0 <> Sample.cid_v1_raw.
Proof.
  split; [|split; [|split]].
  - intros (D & this & H1 & H2).
    change (NextToLast_encode this Sample.cid_v1_dagpb)
      with (NextToLast_encode this Sample.cid_v1_raw) in H2.
    rewrite H1 in H2. discriminate H2.
  - intros (D & this & H1 & H2).
    change (FlatDirectory_encode this Sample.cid_v1_dagpb)
      with (FlatDirectory_encode this Sample.cid_v1_raw) in H2.
    rewrite H1 in H2. discriminate H2.
  - vm_compute. reflexivity.
  - discriminate.
Qed.

(** C1, amended.  Fix a configuration (extension, prefix length, codec)
    whose codec decodes what it encoded for the multihash bytes of [x], and
    where neither that text nor the extension contains a [/].  Then, in
    both variants, [decode (encode x)] is what [CID.decode] makes of the
    multihash bytes of [x]; so it is [x] for every identifier that
    [CID.decode] rebuilds from its multihash bytes. *)
Theorem roundtrip_on_multihash
    (CID_decode : list byte -> Result CID)
    (ext : string) (p : Z) (base : MultibaseCodec) (x : CID) :
  let bytes := mh_bytes (cid_multihash x) in
  let ntl := mkNextToLast ext p base in
  let flat := mkFlatDirectory ext base in
  decoder_decode base (encoder_encode base bytes) = Ok bytes ->
  JsString.mem "/" (encoder_encode base bytes +:+ ext) = false ->
  NextToLast_decode CID_decode ntl (NextToLast_encode ntl x)
    = CID_decode bytes
  /\ FlatDirectory_decode CID_decode flat (FlatDirectory_encode flat x)
    = CID_decode bytes
  /\ (CID_decode bytes = Ok x ->
      NextToLast_decode CID_decode ntl (NextToLast_encode ntl x) = Ok x /\
      FlatDirectory_decode CID_decode flat (FlatDirectory_encode flat x)
        = Ok x).
Proof.
  intros bytes ntl flat Hcodec Hslash.
  assert (Hn : NextToLast_decode CID_decode ntl (NextToLast_encode ntl x)
               = CID_decode bytes).
  { unfold NextToLast_decode, NextToLast_encode, NextToLast_token. simpl.
    fold bytes. rewrite (fileName_of_path _ _ _ Hslash), Hcodec.
    reflexivity. }
  assert (Hf : FlatDirectory_decode CID_decode flat
                 (FlatDirectory_encode flat x) = CID_decode bytes).
  { unfold FlatDirectory_decode, FlatDirectory_encode. simpl.
    fold bytes. rewrite (fileName_of_flat _ _ Hslash), Hcodec.
    reflexivity. }
  split; [exact Hn | split; [exact Hf | intros Hx; split; congruence]].
Qed.

Lemma roundtrip_on_multihash_witness :
  NextToLast_decode Sample.sample_CID_decode Sample.nextToLast
    (NextToLast_encode Sample.nextToLast Sample.cid_v0) = Ok Sample.cid_v0 /\
  FlatDirectory_decode Sample.sample_CID_decode Sample.flatDirectory
    (FlatDirectory_encode Sample.flatDirectory Sample.cid_v0)
    = Ok Sample.cid_v0.
Proof.
  apply (roundtrip_on_multihash Sample.sample_CID_decode ".data" 2
           Sample.latin1 Sample.cid_v0).
  - vm_compute. reflexivity.
  - vm_compute. reflexivity.
  - vm_compute. reflexivity.
Defined.

(** C8.  For a prefix-shard strategy with [prefixLength = p >= 0]: the
    path is the shard prefix, a [/], the token and the extension; the
    shard prefix has length [p], or the length of the token when that is
    shorter; it is the trailing [p] characters of the token, and is the
    first segment of the path when the token has no [/]; identifiers whose
    trailing [p] token characters differ get different shard prefixes and
    different paths; and with [prefixLength = 2], extension [.data] and
    token [ABCDEFGH] the path is [GH/ABCDEFGH.data]. *)
Theorem shard_prefix_of_encode (this : NextToLast) (x y : CID) :
  0 <= ntl_prefixLength this ->
  let p := ntl_prefixLength this in
  let trail c :=
    JsString.trailing (Z.to_nat p) (JsString.chars (NextToLast_token this c)) in
  NextToLast_encode this x
    = NextToLast_prefix this x +:+ "/" +:+ NextToLast_token this x
        +:+ ntl_extension this
  /\ JsString.length (NextToLast_prefix this x)
     = Z.min p (JsString.length (NextToLast_token this x))
  /\ JsString.chars (NextToLast_prefix this x) = trail x
  /\ (JsString.mem "/" (NextToLast_token this x) = false ->
      JsString.first (JsString.split "/" (NextToLast_encode this x))
      = Some (NextToLast_prefix this x))
  /\ (trail x <> trail y ->
      NextToLast_prefix this x <> NextToLast_prefix this y /\
      NextToLast_encode this x <> NextToLast_encode this y)
  /\ (p = 2 -> ntl_extension this = ".data" ->
      NextToLast_token this x = "ABCDEFGH" ->
      NextToLast_encode this x = "GH/ABCDEFGH.data").
Proof.
  intros Hp p trail.
  split; [reflexivity|].
  split; [now apply NextToLast_prefix_length|].
  split; [now apply NextToLast_prefix_chars|].
  split; [|split].
  - intros Hm. unfold NextToLast_encode, JsString.split.
    change (?a +:+ "/" +:+ ?b) with (a +:+ String "/" b).
    rewrite JsStringFacts.split_go_first
      by now apply NextToLast_prefix_no_slash.
    simpl. now rewrite JsStringFacts.of_chars_chars.
  - intros Hne.
    assert (Hpre : NextToLast_prefix this x <> NextToLast_prefix this y).
    { intros E. apply Hne. unfold trail, p.
      rewrite <- !NextToLast_prefix_chars by assumption. now rewrite E. }
    split; [exact Hpre|].
    intros E. apply Hpre. apply JsStringFacts.chars_inj.
    apply (f_equal JsString.chars) in E. unfold NextToLast_encode in E.
    rewrite !JsStringFacts.chars_app in E.
    pose proof (f_equal (@List.length ascii) E) as HL.
    rewrite !List.length_app in HL.
    pose proof (NextToLast_prefix_length this x Hp) as Lx.
    pose proof (NextToLast_prefix_length this y Hp) as Ly.
    rewrite !JsStringFacts.length_chars in Lx, Ly.
    apply app_inj_1 in E; [tauto|]. lia.
  - intros H2 Hext Htok. unfold NextToLast_encode, NextToLast_prefix.
    fold p. rewrite H2, Hext, Htok. reflexivity.
Qed.

Lemma shard_prefix_of_encode_witness :
  NextToLast_encode Sample.nextToLast Sample.cid_ABCDEFGH = "GH/ABCDEFGH.data"
  /\ JsString.length (NextToLast_prefix Sample.nextToLast Sample.cid_ABCDEFGH)
     = 2
  /\ NextToLast_prefix Sample.nextToLast Sample.cid_ABCDEFGH
     <> NextToLast_prefix Sample.nextToLast Sample.cid_v0.
Proof.
  destruct (shard_prefix_of_encode Sample.nextToLast Sample.cid_ABCDEFGH
              Sample.cid_v0 ltac:(simpl; lia))
    as (_ & HL & _ & _ & Hd & Hc).
  split; [exact (Hc eq_refl eq_refl eq_refl)|].
  split; [exact HL|].
  apply Hd. vm_compute. discriminate.
Defined.

(** C9.  [encode] reads nothing of the identifier but its multihash
    bytes: two identifiers with the same multihash bytes get the same path
    in both variants, and a store built on either variant addresses their
    blocks by the same object key. *)
Theorem encode_reads_only_multihash {W : Type}
    (ntl : NextToLast) (flat : FlatDirectory) (x y : CID) :
  mh_bytes (cid_multihash x) = mh_bytes (cid_multihash y) ->
  NextToLast_encode ntl x = NextToLast_encode ntl y
  /\ FlatDirectory_encode flat x = FlatDirectory_encode flat y
  /\ forall (CID_decode : list byte -> Result CID) (store : S3Blockstore W),
       shardingStrategy store = NextToLast_strategy CID_decode ntl \/
       shardingStrategy store = FlatDirectory_strategy CID_decode flat ->
       objectKey store x = objectKey store y.
Proof.
  intros E.
  assert (En : NextToLast_encode ntl x = NextToLast_encode ntl y).
  { unfold NextToLast_encode, NextToLast_prefix, NextToLast_token.
    now rewrite E. }
  assert (Ef : FlatDirectory_encode flat x = FlatDirectory_encode flat y).
  { unfold FlatDirectory_encode. now rewrite E. }
  split; [exact En|]. split; [exact Ef|].
  intros D store [Hs|Hs]; unfold objectKey; rewrite Hs; simpl; congruence.
Qed.

Lemma encode_reads_only_multihash_witness :
  Sample.cid_v0 <> Sample.cid_v1_raw /\
  NextToLast_encode Sample.nextToLast Sample.cid_v0
  = NextToLast_encode Sample.nextToLast Sample.cid_v1_raw /\
  FlatDirectory_encode Sample.flatDirectory Sample.cid_v0
  = FlatDirectory_encode Sample.flatDirectory Sample.cid_v1_raw.
Proof.
  split; [discriminate|].
  destruct (@encode_reads_only_multihash unit Sample.nextToLast
              Sample.flatDirectory Sample.cid_v0 Sample.cid_v1_raw eq_refl)
    as (Hn & Hf & _).
  split; [exact Hn | exact Hf].
Defined.

(** C10.  For every input string, splitting on [/] and taking the last
    element yields a string, so neither variant of [decode] reaches its
    [Invalid path] branch: [decode] is the codec's decoder followed by
    identifier parsing on the file name, and when it fails, the error is
    the one the codec's decoder threw or the one identifier parsing
    threw. *)
Theorem invalid_path_unreachable
    (CID_decode : list byte -> Result CID)
    (ntl : NextToLast) (flat : FlatDirectory) (str : string) :
  (exists segment : string,
     JsString.pop (JsString.split "/" str) = Some segment)
  /\ (exists fileName : string,
        fileName_of (ntl_extension ntl) str = Some fileName /\
        NextToLast_decode CID_decode ntl str
        = Result_bind (decoder_decode (ntl_base ntl) fileName) CID_decode /\
        forall e, NextToLast_decode CID_decode ntl str = Throw e ->
          decoder_decode (ntl_base ntl) fileName = Throw e \/
          exists bytes, decoder_decode (ntl_base ntl) fileName = Ok bytes /\
                        CID_decode bytes = Throw e)
  /\ (exists fileName : string,
        fileName_of (flat_extension flat) str = Some fileName /\
        FlatDirectory_decode CID_decode flat str
        = Result_bind (decoder_decode (flat_base flat) fileName) CID_decode /\
        forall e, FlatDirectory_decode CID_decode flat str = Throw e ->
          decoder_decode (flat_base flat) fileName = Throw e \/
          exists bytes, decoder_decode (flat_base flat) fileName = Ok bytes /\
                        CID_decode bytes = Throw e).
Proof.
  split; [|split].
  - destruct (JsStringFacts.split_go_last "/" str []) as [seg Hseg].
    exists seg. exact Hseg.
  - destruct (fileName_of_total (ntl_extension ntl) str) as [f Hf].
    exists f. unfold NextToLast_decode. rewrite Hf.
    split; [reflexivity|]. split; [reflexivity|].
    intros e. destruct (decoder_decode (ntl_base ntl) f) as [b|e'] eqn:Hd;
      simpl; intros H.
    + right. exists b. split; [reflexivity | exact H].
    + left. congruence.
  - destruct (fileName_of_total (flat_extension flat) str) as [f Hf].
    exists f. unfold FlatDirectory_decode. rewrite Hf.
    split; [reflexivity|]. split; [reflexivity|].
    intros e. destruct (decoder_decode (flat_base flat) f) as [b|e'] eqn:Hd;
      simpl; intros H.
    + right. exists b. split; [reflexivity | exact H].
    + left. congruence.
Qed.

(* ===================================================================== *)
(** ** Block store *)
(* ===================================================================== *)

Section BlockstoreFacts.

Context {W : Type}.
Variable unint8arrayFromString : string -> list byte.






End BlockstoreFacts.




(** C6.  [put] sends one write of the bytes to the key of the
    identifier.  When the write succeeds, [put] returns the identifier it
    was given; when the write fails, whatever the cause, [put] reports
    [WriteFailed] wrapping that cause; and [put] throws nothing else, so
    the error of the client never reaches the caller bare. *)
Theorem put_wraps_every_failure {W : Type} (this : S3Blockstore W)
    (key : CID) (val : list byte) (options : option AbortOptions) (w : W) :
  let write :=
    send (s3 this) (PutObjectCommand (bucket this) (objectKey this key) val)
      (signal_of options) w in
  (forall data, write.1 = Resolve data ->
     put this key val options w = (Ok key, write.2))
  /\ (forall err, write.1 = Reject err ->
        put this key val options w
        = (Throw (putFailedError (Native err)), write.2))
  /\ (forall e, (put this key val options w).1 = Throw e ->
        exists err, write.1 = Reject err /\
                    e = putFailedError (Native err) /\ e <> Native err)
  /\ (forall k, (put this key val options w).1 = Ok k -> k = key).
Proof.
  intros write. unfold put. fold write.
  destruct write as [[data|err] w']; simpl.
  - repeat split; intros; try discriminate; congruence.
  - split; [intros; discriminate|].
    split; [intros err0 [= <-]; reflexivity|].
    split; [|intros; discriminate].
    intros e [= <-]. exists err. repeat split. discriminate.
Qed.

Lemma put_wraps_every_failure_witness :
  put (Sample.store_on (Sample.constant_client
                          (Reject Sample.internal500)) false)
      Sample.cid_v0 [x01] None tt
  = (Throw (putFailedError (Native Sample.internal500)), tt)
  /\
  put (Sample.store_on S3Mock.s3Mock false) Sample.cid_ABCDEFGH [x01] None []
  = (Ok Sample.cid_ABCDEFGH, [("nullGH/ABCDEFGH.data", [x01])]).
Proof.
  split.
  - pose proof (put_wraps_every_failure
                  (Sample.store_on (Sample.constant_client
                                      (Reject Sample.internal500)) false)
                  Sample.cid_v0 [x01] None tt) as H.
    cbv zeta in H. destruct H as (_ & Hfail & _).
    apply (Hfail Sample.internal500). reflexivity.
  - pose proof (put_wraps_every_failure
                  (Sample.store_on S3Mock.s3Mock false)
                  Sample.cid_ABCDEFGH [x01] None []) as H.
    cbv zeta in H. destruct H as (Hok & _).
    apply (Hok (Some emptyOutput)). reflexivity.
Defined.

(** C7.  [delete] sends one delete for the key of the identifier and
    succeeds silently whenever that request does; it makes no existence
    check of its own.  Against the in-memory client the request always
    succeeds, whether or not the key is stored, leaves a store without the
    key, changes nothing when the key was absent, and can be repeated.
    Any failure of the request is reported as [DeleteFailed] wrapping the
    cause, and [delete] throws nothing else. *)
Theorem delete_idempotent_and_wrapped {W : Type} (this : S3Blockstore W)
    (mock : S3Blockstore S3Mock.Storage)
    (key : CID) (options : option AbortOptions) (w : W)
    (storage : S3Mock.Storage) :
  let request :=
    send (s3 this) (DeleteObjectCommand (bucket this) (objectKey this key))
      (signal_of options) w in
  (forall data, request.1 = Resolve data ->
     delete this key options w = (Ok tt, request.2))
  /\ (forall err, request.1 = Reject err ->
        delete this key options w
        = (Throw (deleteFailedError (Native err)), request.2))
  /\ (forall e, (delete this key options w).1 = Throw e ->
        exists err, request.1 = Reject err /\
                    e = deleteFailedError (Native err) /\ e <> Native err)
  /\ (s3 mock = S3Mock.s3Mock ->
      let storage' := S3Mock.Map_delete (objectKey mock key) storage in
      delete mock key options storage = (Ok tt, storage')
      /\ S3Mock.Map_has (objectKey mock key) storage' = false
      /\ (S3Mock.Map_has (objectKey mock key) storage = false ->
          storage' = storage)
      /\ delete mock key options storage' = (Ok tt, storage')).
Proof.
  intros request.
  split; [|split; [|split]].
  - unfold delete. fold request. destruct request as [[d|err] w']; simpl;
      intros; try discriminate; reflexivity.
  - unfold delete. fold request. destruct request as [[d|err] w']; simpl;
      intros; try discriminate; congruence.
  - unfold delete. fold request. destruct request as [[d|err] w']; simpl;
      intros e He; try discriminate.
    injection He as <-. exists err. repeat split. discriminate.
  - intros Hmock storage'.
    assert (Hdel : forall m, delete mock key options m
                   = (Ok tt, S3Mock.Map_delete (objectKey mock key) m)).
    { intros m. unfold delete. rewrite Hmock. reflexivity. }
    assert (Hgone : S3Mock.Map_has (objectKey mock key) storage' = false).
    { unfold storage', S3Mock.Map_has, S3Mock.Map_delete.
      induction storage as [|[k v] m IH]; simpl; [reflexivity|].
      destruct (String.eqb k (objectKey mock key)) eqn:Hk; simpl;
        [exact IH | now rewrite Hk]. }
    assert (Hsame : forall m, S3Mock.Map_has (objectKey mock key) m = false ->
                              S3Mock.Map_delete (objectKey mock key) m = m).
    { intros m. unfold S3Mock.Map_has, S3Mock.Map_delete.
      induction m as [|[k v] m IH]; simpl; [reflexivity|].
      destruct (String.eqb k (objectKey mock key)) eqn:Hk; simpl;
        [discriminate | intros Hm; now rewrite (IH Hm)]. }
    split; [apply Hdel|]. split; [exact Hgone|]. split; [apply Hsame|].
    rewrite Hdel. f_equal. now apply Hsame.
Qed.

Lemma delete_idempotent_and_wrapped_witness :
  delete (Sample.store_on S3Mock.s3Mock false) Sample.cid_ABCDEFGH None []
  = (Ok tt, [])
  /\
  delete (Sample.store_on S3Mock.s3Mock false) Sample.cid_ABCDEFGH None
    [("nullGH/ABCDEFGH.data", [x01])]
  = (Ok tt, [])
  /\
  delete (Sample.store_on (Sample.constant_client
                             (Reject Sample.internal500)) false)
    Sample.cid_ABCDEFGH None tt
  = (Throw (deleteFailedError (Native Sample.internal500)), tt).
Proof.
  split; [|split].
  - pose proof (delete_idempotent_and_wrapped
                  (Sample.store_on S3Mock.s3Mock false)
                  (Sample.store_on S3Mock.s3Mock false)
                  Sample.cid_ABCDEFGH None [] []) as H.
    cbv zeta in H. destruct H as (_ & _ & _ & Hmock).
    exact (proj1 (Hmock eq_refl)).
  - pose proof (delete_idempotent_and_wrapped
                  (Sample.store_on S3Mock.s3Mock false)
                  (Sample.store_on S3Mock.s3Mock false)
                  Sample.cid_ABCDEFGH None []
                  [("nullGH/ABCDEFGH.data", [x01])]) as H.
    cbv zeta in H. destruct H as (_ & _ & _ & Hmock).
    exact (proj1 (Hmock eq_refl)).
  - pose proof (delete_idempotent_and_wrapped
                  (Sample.store_on (Sample.constant_client
                                      (Reject Sample.internal500)) false)
                  (Sample.store_on S3Mock.s3Mock false)
                  Sample.cid_ABCDEFGH None tt []) as H.
    cbv zeta in H. destruct H as (_ & Hfail & _).
    apply (Hfail Sample.internal500). reflexivity.
Defined.

(** C5.  [has] sends one existence probe for the key of the identifier.
    When the probe succeeds, [has] returns true; when it fails with HTTP
    status 404 or 403 (the [$metadata.httpStatusCode] of the error), [has]
    returns false; any other failure of the probe reaches the caller as it
    was raised. *)
Theorem has_maps_404_and_403_to_false {W : Type} (this : S3Blockstore W)
    (key : CID) (options : option AbortOptions) (w : W) :
  let probe :=
    send (s3 this) (HeadObjectCommand (bucket this) (objectKey this key))
      (signal_of options) w in
  (forall data, probe.1 = Resolve data ->
     has this key options w = (Ok true, probe.2))
  /\ (forall err, probe.1 = Reject err ->
        e_httpStatusCode err = Some 404 \/ e_httpStatusCode err = Some 403 ->
        has this key options w = (Ok false, probe.2))
  /\ (forall err, probe.1 = Reject err ->
        e_httpStatusCode err <> Some 404 -> e_httpStatusCode err <> Some 403 ->
        has this key options w = (Throw (Native err), probe.2)).
Proof.
  intros probe. unfold has, httpStatusCode_is. fold probe.
  destruct probe as [[data|err] w']; simpl.
  - repeat split; intros; try discriminate; reflexivity.
  - split; [intros; discriminate|]. split.
    + intros err0 [= <-] [H|H].
      * now rewrite bool_decide_eq_true_2.
      * destruct (bool_decide (e_httpStatusCode err = Some 404));
          [reflexivity | now rewrite bool_decide_eq_true_2].
    + intros err0 [= <-] H4 H3.
      now rewrite !bool_decide_eq_false_2.
Qed.

Lemma has_maps_404_and_403_to_false_witness :
  has (Sample.store_on (Sample.constant_client
                          (Reject Sample.notFound404)) false)
    Sample.cid_v0 None tt = (Ok false, tt)
  /\
  has (Sample.store_on (Sample.constant_client
                          (Reject Sample.forbidden403)) false)
    Sample.cid_v0 None tt = (Ok false, tt)
  /\
  has (Sample.store_on (Sample.constant_client
                          (Reject Sample.internal500)) false)
    Sample.cid_v0 None tt = (Throw (Native Sample.internal500), tt)
  /\
  has (Sample.store_on (Sample.constant_client (Resolve None)) false)
    Sample.cid_v0 None tt = (Ok true, tt).
Proof.
  split; [|split; [|split]].
  - pose proof (has_maps_404_and_403_to_false
                  (Sample.store_on (Sample.constant_client
                                      (Reject Sample.notFound404)) false)
                  Sample.cid_v0 None tt) as H.
    cbv zeta in H. destruct H as (_ & Hfalse & _).
    apply (Hfalse Sample.notFound404); [reflexivity | left; reflexivity].
  - pose proof (has_maps_404_and_403_to_false
                  (Sample.store_on (Sample.constant_client
                                      (Reject Sample.forbidden403)) false)
                  Sample.cid_v0 None tt) as H.
    cbv zeta in H. destruct H as (_ & Hfalse & _).
    apply (Hfalse Sample.forbidden403); [reflexivity | right; reflexivity].
  - pose proof (has_maps_404_and_403_to_false
                  (Sample.store_on (Sample.constant_client
                                      (Reject Sample.internal500)) false)
                  Sample.cid_v0 None tt) as H.
    cbv zeta in H. destruct H as (_ & _ & Hthrow).
    apply (Hthrow Sample.internal500); [reflexivity | discriminate..].
  - pose proof (has_maps_404_and_403_to_false
                  (Sample.store_on (Sample.constant_client (Resolve None)) false)
                  Sample.cid_v0 None tt) as H.
    cbv zeta in H. destruct H as (Htrue & _).
    apply (Htrue None). reflexivity.
Defined.




(** C3, as stated, fails.  With a client that honours an aborted signal,
    [put] and [delete] do not pass the cancellation on: they report
    [WriteFailed] and [DeleteFailed] wrapping it; and [getAll] does not
    end without error: it throws a new [Error].  With a client that does
    not look at the signal (the in-memory one), [put] raises nothing at
    all. *)
Lemma cancelled_put_reports_WriteFailed :
  put (Sample.store_on (Sample.abortable S3Mock.s3Mock) false)
    Sample.cid_ABCDEFGH [x01] Sample.cancelled []
  = (Throw (putFailedError (Native Sample.abortError)), [])
  /\
  delete (Sample.store_on (Sample.abortable S3Mock.s3Mock) false)
    Sample.cid_ABCDEFGH Sample.cancelled []
  = (Throw (deleteFailedError (Native Sample.abortError)), [])
  /\
  getAll Sample.fromString 1 (Sample.store_on (Sample.abortable S3Mock.s3Mock) false)
    Sample.cancelled []
  = ([], Threw (Native (new_Error None)), [])
  /\
  put (Sample.store_on S3Mock.s3Mock false)
    Sample.cid_ABCDEFGH [x01] Sample.cancelled []
  = (Ok Sample.cid_ABCDEFGH, [("nullGH/ABCDEFGH.data", [x01])]).
Proof. repeat split. Qed.

(** C3, amended.  Let the signal be cancelled already when the operation
    is called.  Whenever the client rejects the request (a client that
    honours the signal does, with its cancellation error): [has] passes
    the error on as it was raised, provided its HTTP status is neither 404
    nor 403; [put] reports [WriteFailed] wrapping it; [delete] reports
    [DeleteFailed] wrapping it; and [getAll] yields nothing and throws a
    new [Error].  Whenever the client answers the first listing request,
    [getAll] yields zero entries and ends the sequence without error: the
    flag is read once the page has arrived. *)
Theorem cancelled_before_request {W : Type}
    (unint8arrayFromString : string -> list byte)
    (this : S3Blockstore W) (key : CID) (val : list byte)
    (options : option AbortOptions) (w : W) (fuel : nat) :
  is_aborted options = true ->
  let write :=
    send (s3 this) (PutObjectCommand (bucket this) (objectKey this key) val)
      (signal_of options) w in
  let probe :=
    send (s3 this) (HeadObjectCommand (bucket this) (objectKey this key))
      (signal_of options) w in
  let request :=
    send (s3 this) (DeleteObjectCommand (bucket this) (objectKey this key))
      (signal_of options) w in
  let listing :=
    send (s3 this) (ListObjectsV2Command (bucket this) (prefix this) None)
      (signal_of options) w in
  (forall err, probe.1 = Reject err ->
     e_httpStatusCode err <> Some 404 -> e_httpStatusCode err <> Some 403 ->
     has this key options w = (Throw (Native err), probe.2))
  /\ (forall err, write.1 = Reject err ->
        put this key val options w
        = (Throw (putFailedError (Native err)), write.2))
  /\ (forall err, request.1 = Reject err ->
        delete this key options w
        = (Throw (deleteFailedError (Native err)), request.2))
  /\ (forall err, listing.1 = Reject err ->
        getAll unint8arrayFromString (S fuel) this options w
        = ([], Threw (Native (new_Error (e_code err))), listing.2))
  /\ (forall data, listing.1 = Resolve data ->
        getAll unint8arrayFromString (S fuel) this options w
        = ([], Returned, listing.2)).
Proof.
  intros Hab write probe request listing.
  split; [|split; [|split; [|split]]].
  - intros err Hp H4 H3. unfold has, httpStatusCode_is. fold probe.
    destruct probe as [[d|err0] w']; simpl in *; [discriminate|].
    injection Hp as ->. now rewrite !bool_decide_eq_false_2.
  - intros err Hw. unfold put. fold write.
    destruct write as [[d|err0] w']; simpl in *; [discriminate|].
    now injection Hw as ->.
  - intros err Hr. unfold delete. fold request.
    destruct request as [[d|err0] w']; simpl in *; [discriminate|].
    now injection Hr as ->.
  - intros err Hl. unfold getAll. simpl. fold listing.
    destruct listing as [[d|err0] w']; simpl in *; [discriminate|].
    now injection Hl as ->.
  - intros data Hl. unfold getAll. simpl. fold listing.
    destruct listing as [[d|err0] w']; simpl in *; [|discriminate].
    now rewrite Hab.
Qed.

Lemma cancelled_before_request_witness :
  is_aborted Sample.cancelled = true
  /\
  has (Sample.store_on (Sample.abortable S3Mock.s3Mock) false)
    Sample.cid_ABCDEFGH Sample.cancelled []
  = (Throw (Native Sample.abortError), [])
  /\
  getAll Sample.fromString 1 (Sample.store_on S3Mock.s3Mock false)
    Sample.cancelled [("nullGH/ABCDEFGH.data", [x01])]
  = ([], Returned, [("nullGH/ABCDEFGH.data", [x01])]).
Proof.
  split; [reflexivity|]. split.
  - pose proof (cancelled_before_request Sample.fromString
                  (Sample.store_on (Sample.abortable S3Mock.s3Mock) false)
                  Sample.cid_ABCDEFGH [] Sample.cancelled [] 0 eq_refl) as H.
    cbv zeta in H. destruct H as (Hhas & _).
    apply (Hhas Sample.abortError); [reflexivity | discriminate..].
  - pose proof (cancelled_before_request Sample.fromString
                  (Sample.store_on S3Mock.s3Mock false)
                  Sample.cid_ABCDEFGH [] Sample.cancelled
                  [("nullGH/ABCDEFGH.data", [x01])] 0 eq_refl) as H.
    cbv zeta in H. destruct H as (_ & _ & _ & _ & Hret).
    eapply Hret. reflexivity.
Defined.

(* ===================================================================== *)
(** * Further properties of the code *)
(* ===================================================================== *)

(** ** More facts about the string primitives *)

Module JsStringMore.
Import JsString JsStringFacts.

Lemma append_assoc (a b c : string) : (a +:+ b) +:+ c = a +:+ b +:+ c.
Proof. apply chars_inj. now rewrite !chars_app, app_assoc. Qed.

Lemma mem_app (c : ascii) (a b : string) :
  mem c (a +:+ b) = mem c a || mem c b.
Proof.
  induction a as [|x a IH]; simpl; [reflexivity|].
  now rewrite IH, orb_assoc.
Qed.

(** [str.substring(str.length - p)] for every integer [p]: a negative [p]
    counts as zero. *)
Lemma substring_tail_any (s : string) (p : Z) :
  chars (substring s (length s - p) None)
  = drop (List.length (chars s) - Z.to_nat p) (chars s).
Proof.
  destruct (Z.le_gt_cases 0 p) as [Hp|Hp].
  - rewrite (substring_tail s p Hp). apply trailing_drop.
  - unfold substring, clamp. rewrite chars_of_chars, length_chars.
    set (n := List.length (chars s)).
    rewrite (Z.min_r (Z.of_nat n - p)) by lia.
    rewrite (Z.max_r 0 (Z.of_nat n)) by lia.
    rewrite Z.min_id, Z.max_id, Z.sub_diag, Nat2Z.id.
    replace (n - Z.to_nat p)%nat with n by lia.
    change (Z.to_nat 0) with 0%nat. subst n. now rewrite take_0, drop_all.
Qed.

(** Everything up to a separator is dropped from the last segment, also
    when the rest has separators of its own. *)
Lemma pop_split_drops_directory (sep : ascii) (a b : string) :
  pop (split sep (a +:+ String sep b)) = pop (split sep b).
Proof. unfold pop, split. apply split_go_last_app. Qed.

End JsStringMore.

(** ** Sharding strategy: file names, directories, collisions *)

Section ShardingMore.

Variable CID_decode : list byte -> Result CID.

Lemma fileName_of_drops_directory (ext dir rest : string) :
  fileName_of ext (dir +:+ "/" +:+ rest) = fileName_of ext rest.
Proof.
  unfold fileName_of.
  change (dir +:+ "/" +:+ rest) with (dir +:+ String "/" rest).
  now rewrite JsStringMore.pop_split_drops_directory.
Qed.

Lemma fileName_of_without_extension (ext f : string) :
  JsString.mem "/" f = false ->
  JsString.endsWith f ext = false ->
  fileName_of ext f = Some f.
Proof.
  intros Hm He. unfold fileName_of.
  now rewrite (JsStringFacts.pop_split_no_sep _ _ Hm), He.
Qed.

Lemma NextToLast_prefix_drop (this : NextToLast) (x : CID) :
  JsString.chars (NextToLast_prefix this x)
  = drop (length (JsString.chars (NextToLast_token this x))
          - Z.to_nat (ntl_prefixLength this))
      (JsString.chars (NextToLast_token this x)).
Proof. apply JsStringMore.substring_tail_any. Qed.

(** A path of the prefix-shard variant determines its token. *)
Lemma NextToLast_encode_token_inj (this : NextToLast) (x y : CID) :
  NextToLast_encode this x = NextToLast_encode this y ->
  NextToLast_token this x = NextToLast_token this y.
Proof.
  intros E. apply JsStringFacts.chars_inj.
  apply (f_equal JsString.chars) in E. unfold NextToLast_encode in E.
  rewrite !JsStringFacts.chars_app in E.
  pose proof (f_equal (@List.length ascii) E) as HL.
  rewrite !List.length_app in HL.
  pose proof (f_equal (@List.length ascii) (NextToLast_prefix_drop this x))
    as Lx.
  pose proof (f_equal (@List.length ascii) (NextToLast_prefix_drop this y))
    as Ly.
  rewrite length_drop in Lx, Ly.
  apply app_inj_1 in E as [_ E]; [|lia].
  apply List.app_inv_head in E. now apply List.app_inv_tail in E.
Qed.

End ShardingMore.

(** X1.  [decode] looks at nothing before the last [/]: in both variants
    a path decodes as what follows its first [/] does, whatever directories
    come in front. *)
Theorem decode_drops_directories
    (CID_decode : list byte -> Result CID)
    (ntl : NextToLast) (flat : FlatDirectory) (dir rest : string) :
  NextToLast_decode CID_decode ntl (dir +:+ "/" +:+ rest)
  = NextToLast_decode CID_decode ntl rest
  /\ FlatDirectory_decode CID_decode flat (dir +:+ "/" +:+ rest)
     = FlatDirectory_decode CID_decode flat rest.
Proof.
  unfold NextToLast_decode, FlatDirectory_decode.
  now rewrite !fileName_of_drops_directory.
Qed.

(** X2.  For a file name without [/], in both variants: when it ends with
    the extension, the codec is given the name with that one occurrence of
    the extension taken off its end, and no more; when it does not end with
    the extension, the codec is given the whole name. *)
Theorem decode_strips_extension_once
    (CID_decode : list byte -> Result CID)
    (ext : string) (p : Z) (base : MultibaseCodec) (f : string) :
  JsString.mem "/" f = false ->
  let ntl := mkNextToLast ext p base in
  let flat := mkFlatDirectory ext base in
  (forall t, f = t +:+ ext ->
     NextToLast_decode CID_decode ntl f
     = Result_bind (decoder_decode base t) CID_decode /\
     FlatDirectory_decode CID_decode flat f
     = Result_bind (decoder_decode base t) CID_decode)
  /\ (JsString.endsWith f ext = false ->
      NextToLast_decode CID_decode ntl f
      = Result_bind (decoder_decode base f) CID_decode /\
      FlatDirectory_decode CID_decode flat f
      = Result_bind (decoder_decode base f) CID_decode).
Proof.
  intros Hm ntl flat. unfold NextToLast_decode, FlatDirectory_decode. simpl.
  split.
  - intros t ->. now rewrite (fileName_of_flat _ _ Hm).
  - intros He. now rewrite (fileName_of_without_extension _ _ Hm He).
Qed.

Lemma decode_strips_extension_once_witness :
  FlatDirectory_decode Sample.sample_CID_decode Sample.flatDirectory
    "x.data.data"
  = Result_bind (decoder_decode Sample.latin1 "x.data")
      Sample.sample_CID_decode
  /\
  FlatDirectory_decode Sample.sample_CID_decode Sample.flatDirectory "x.dat"
  = Result_bind (decoder_decode Sample.latin1 "x.dat")
      Sample.sample_CID_decode.
Proof.
  split.
  - destruct (decode_strips_extension_once Sample.sample_CID_decode ".data" 2
                Sample.latin1 "x.data.data" eq_refl) as (Hs & _).
    exact (proj2 (Hs "x.data" eq_refl)).
  - destruct (decode_strips_extension_once Sample.sample_CID_decode ".data" 2
                Sample.latin1 "x.dat" eq_refl) as (_ & Hn).
    exact (proj2 (Hn eq_refl)).
Defined.

(** X3.  No two content hashes share a path: when the codec decodes what
    it encoded for the multihash bytes of two identifiers, equal paths
    force equal multihash bytes, in both variants and for every
    [prefixLength]. *)
Theorem encode_separates_multihashes
    (ext : string) (p : Z) (base : MultibaseCodec) (x y : CID) :
  let bx := mh_bytes (cid_multihash x) in
  let by_ := mh_bytes (cid_multihash y) in
  let ntl := mkNextToLast ext p base in
  let flat := mkFlatDirectory ext base in
  decoder_decode base (encoder_encode base bx) = Ok bx ->
  decoder_decode base (encoder_encode base by_) = Ok by_ ->
  (NextToLast_encode ntl x = NextToLast_encode ntl y -> bx = by_)
  /\ (FlatDirectory_encode flat x = FlatDirectory_encode flat y -> bx = by_).
Proof.
  intros bx by_ ntl flat Hx Hy.
  assert (Htok : encoder_encode base bx = encoder_encode base by_ -> bx = by_).
  { intros E. rewrite E in Hx. congruence. }
  split; intros E; apply Htok.
  - exact (NextToLast_encode_token_inj ntl x y E).
  - apply JsStringFacts.chars_inj.
    apply (f_equal JsString.chars) in E. unfold FlatDirectory_encode in E.
    rewrite !JsStringFacts.chars_app in E.
    now apply List.app_inv_tail in E.
Qed.

Lemma encode_separates_multihashes_witness :
  NextToLast_encode Sample.nextToLast Sample.cid_v0
  <> NextToLast_encode Sample.nextToLast Sample.cid_v0_b
  /\
  FlatDirectory_encode Sample.flatDirectory Sample.cid_v0
  <> FlatDirectory_encode Sample.flatDirectory Sample.cid_v0_b.
Proof.
  destruct (encode_separates_multihashes ".data" 2 Sample.latin1
              Sample.cid_v0 Sample.cid_v0_b eq_refl eq_refl) as (Hn & Hf).
  split; intros E; [apply Hn in E | apply Hf in E]; discriminate E.
Defined.

(** X4.  [prefixLength] out of range.  Zero or a negative number gives
    the empty shard prefix, so every path is [/], the token and the
    extension; a number that is at least the length of the token gives the
    whole token as shard prefix. *)
Theorem prefixLength_out_of_range (this : NextToLast) (x : CID) :
  (ntl_prefixLength this <= 0 ->
   NextToLast_prefix this x = "" /\
   NextToLast_encode this x
   = "/" +:+ NextToLast_token this x +:+ ntl_extension this)
  /\ (JsString.length (NextToLast_token this x) <= ntl_prefixLength this ->
      NextToLast_prefix this x = NextToLast_token this x /\
      NextToLast_encode this x
      = NextToLast_token this x +:+ "/" +:+ NextToLast_token this x
          +:+ ntl_extension this).
Proof.
  pose proof (NextToLast_prefix_drop this x) as Hd.
  split; intros Hp.
  - assert (E : NextToLast_prefix this x = "").
    { apply JsStringFacts.chars_inj. rewrite Hd.
      replace (Z.to_nat (ntl_prefixLength this)) with 0%nat by lia.
      rewrite Nat.sub_0_r. apply drop_all. }
    split; [exact E|]. unfold NextToLast_encode. now rewrite E.
  - assert (E : NextToLast_prefix this x = NextToLast_token this x).
    { apply JsStringFacts.chars_inj. rewrite Hd.
      rewrite JsStringFacts.length_chars in Hp.
      replace (_ - _)%nat with 0%nat by lia. apply drop_0. }
    split; [exact E|]. unfold NextToLast_encode. now rewrite E.
Qed.

Lemma prefixLength_out_of_range_witness :
  NextToLast_encode (mkNextToLast ".data" (-3) Sample.latin1)
    Sample.cid_ABCDEFGH = "/ABCDEFGH.data"
  /\
  NextToLast_encode (mkNextToLast ".data" 50 Sample.latin1)
    Sample.cid_ABCDEFGH = "ABCDEFGH/ABCDEFGH.data".
Proof.
  split.
  - destruct (prefixLength_out_of_range
                (mkNextToLast ".data" (-3) Sample.latin1) Sample.cid_ABCDEFGH)
      as (Hneg & _).
    exact (proj2 (Hneg ltac:(simpl; lia))).
  - destruct (prefixLength_out_of_range
                (mkNextToLast ".data" 50 Sample.latin1) Sample.cid_ABCDEFGH)
      as (_ & Hbig).
    exact (proj2 (Hbig ltac:(vm_compute; discriminate))).
Defined.

(** X5.  Paths of the prefix-shard variant are read back whatever
    [prefixLength] they were written with and whatever text stands in
    front of them (a store prefix, or the text [null] of a store without
    one): when the codec decodes what it encoded for the multihash bytes
    and neither that text nor the extension contains a [/], both variants
    of [decode], for every [prefixLength] of their own, give what
    [CID.decode] makes of the multihash bytes; the same holds for a path of
    the flat variant that stands behind a [/]. *)
Theorem decode_reads_object_keys
    (CID_decode : list byte -> Result CID)
    (ext : string) (p p' : Z) (base : MultibaseCodec) (pre : string)
    (x : CID) :
  let bytes := mh_bytes (cid_multihash x) in
  let written := NextToLast_encode (mkNextToLast ext p base) x in
  let flat_written := FlatDirectory_encode (mkFlatDirectory ext base) x in
  decoder_decode base (encoder_encode base bytes) = Ok bytes ->
  JsString.mem "/" (encoder_encode base bytes +:+ ext) = false ->
  NextToLast_decode CID_decode (mkNextToLast ext p' base) (pre +:+ written)
  = CID_decode bytes
  /\ FlatDirectory_decode CID_decode (mkFlatDirectory ext base)
       (pre +:+ written) = CID_decode bytes
  /\ NextToLast_decode CID_decode (mkNextToLast ext p' base)
       (pre +:+ "/" +:+ flat_written) = CID_decode bytes
  /\ FlatDirectory_decode CID_decode (mkFlatDirectory ext base)
       (pre +:+ "/" +:+ flat_written) = CID_decode bytes.
Proof.
  intros bytes written flat_written Hcodec Hslash.
  assert (Hw : fileName_of ext (pre +:+ written)
               = Some (encoder_encode base bytes)).
  { unfold written, NextToLast_encode, NextToLast_token. simpl. fold bytes.
    rewrite <- JsStringMore.append_assoc.
    now apply fileName_of_path. }
  assert (Hf : fileName_of ext (pre +:+ "/" +:+ flat_written)
               = Some (encoder_encode base bytes)).
  { unfold flat_written, FlatDirectory_encode. simpl. fold bytes.
    now apply fileName_of_path. }
  unfold NextToLast_decode, FlatDirectory_decode. simpl.
  rewrite Hw, Hf, Hcodec. simpl. repeat split.
Qed.

Lemma decode_reads_object_keys_witness :
  NextToLast_decode Sample.sample_CID_decode
    (mkNextToLast ".data" 7 Sample.latin1)
    ("null" +:+ NextToLast_encode Sample.nextToLast Sample.cid_v0)
  = Ok Sample.cid_v0.
Proof.
  destruct (decode_reads_object_keys Sample.sample_CID_decode ".data" 2 7
              Sample.latin1 "null" Sample.cid_v0 eq_refl eq_refl)
    as (Hn & _).
  exact Hn.
Defined.

(** X6.  A path of the flat variant with text in front and no [/]
    between them is not read back as it was written: the codec is given
    that text followed by the token.  A store with the flat strategy and no
    prefix writes such keys, with the text [null] in front. *)
Theorem flat_key_without_prefix
    (CID_decode : list byte -> Result CID) {W : Type}
    (store : S3Blockstore W) (flat : FlatDirectory) (x : CID) :
  let token := encoder_encode (flat_base flat) (mh_bytes (cid_multihash x)) in
  shardingStrategy store = FlatDirectory_strategy CID_decode flat ->
  prefix store = None ->
  JsString.mem "/" (token +:+ flat_extension flat) = false ->
  objectKey store x = "null" +:+ token +:+ flat_extension flat
  /\ decode (shardingStrategy store) (objectKey store x)
     = Result_bind (decoder_decode (flat_base flat) ("null" +:+ token))
         CID_decode.
Proof.
  intros token Hs Hp Hm. unfold objectKey. rewrite Hs, Hp. simpl.
  split; [reflexivity|].
  unfold FlatDirectory_decode, FlatDirectory_encode. fold token.
  change ("null" +:+ token +:+ flat_extension flat)
    with (("null" +:+ token) +:+ flat_extension flat).
  rewrite fileName_of_flat; [reflexivity|].
  change (("null" +:+ token) +:+ flat_extension flat)
    with ("null" +:+ token +:+ flat_extension flat).
  now rewrite JsStringMore.mem_app, Hm.
Qed.

Lemma flat_key_without_prefix_witness :
  exists e,
    decode (shardingStrategy (Sample.flat_store None))
      (objectKey (Sample.flat_store None) Sample.cid_v0) = Throw e.
Proof.
  destruct (flat_key_without_prefix Sample.sample_CID_decode
              (Sample.flat_store None) Sample.flatDirectory Sample.cid_v0
              eq_refl eq_refl eq_refl) as (_ & Hd).
  rewrite Hd. vm_compute. eexists. reflexivity.
Defined.

(** ** The in-memory client: its map *)

Module S3MockFacts.
Import S3Mock.

Lemma Map_has_get (k : string) (m : Storage) :
  Map_has k m = true <-> is_Some (Map_get k m).
Proof.
  unfold Map_has. induction m as [|[k' v'] m IH]; simpl.
  - split; [discriminate | intros [? ?]; discriminate].
  - destruct (String.eqb k' k); simpl; [split; eauto | exact IH].
Qed.

Lemma Map_get_absent (k : string) (m : Storage) :
  Map_has k m = false <-> Map_get k m = None.
Proof.
  rewrite <- not_true_iff_false, Map_has_get, <- eq_None_not_Some. tauto.
Qed.

Lemma Map_get_set_eq (k : string) (v : list byte) (m : Storage) :
  Map_get k (Map_set k v m) = Some v.
Proof.
  induction m as [|[k' v'] m IH]; simpl.
  - now rewrite String.eqb_refl.
  - destruct (String.eqb k' k) eqn:E; simpl.
    + now rewrite String.eqb_refl.
    + now rewrite E.
Qed.

Lemma Map_get_set_ne (k k' : string) (v : list byte) (m : Storage) :
  k <> k' -> Map_get k' (Map_set k v m) = Map_get k' m.
Proof.
  intros Hne. induction m as [|[k0 v0] m IH]; simpl.
  - now apply String.eqb_neq in Hne as ->.
  - destruct (String.eqb_spec k0 k) as [->|Hk]; simpl.
    + now apply String.eqb_neq in Hne as ->.
    + now rewrite IH.
Qed.

Lemma Map_get_delete_eq (k : string) (m : Storage) :
  Map_get k (Map_delete k m) = None.
Proof.
  unfold Map_delete. induction m as [|[k' v'] m IH]; simpl; [reflexivity|].
  destruct (String.eqb k' k) eqn:E; simpl; [exact IH | now rewrite E].
Qed.

Lemma Map_get_delete_ne (k k' : string) (m : Storage) :
  k <> k' -> Map_get k' (Map_delete k m) = Map_get k' m.
Proof.
  intros Hne. unfold Map_delete.
  induction m as [|[k0 v0] m IH]; simpl; [reflexivity|].
  destruct (String.eqb_spec k0 k) as [->|Hk]; simpl.
  - now apply String.eqb_neq in Hne as ->.
  - now rewrite IH.
Qed.

Lemma Map_has_congr (k : string) (m m' : Storage) :
  Map_get k m = Map_get k m' -> Map_has k m = Map_has k m'.
Proof.
  intros E. apply eq_true_iff_eq. now rewrite !Map_has_get, E.
Qed.

(** [set] never changes which keys are stored first, nor their order. *)
Lemma Map_keys_set (k : string) (v : list byte) (m : Storage) :
  Map_keys (Map_set k v m)
  = if Map_has k m then Map_keys m else Map_keys m ++ [k].
Proof.
  unfold Map_keys, Map_has. induction m as [|[k' v'] m IH]; simpl;
    [reflexivity|].
  destruct (String.eqb_spec k' k) as [->|Hk]; simpl; [reflexivity|].
  rewrite IH. now destruct (existsb _ m).
Qed.

Lemma Map_keys_delete (k : string) (m : Storage) :
  Map_keys (Map_delete k m)
  = List.filter (fun k' => negb (String.eqb k' k)) (Map_keys m).
Proof.
  unfold Map_keys, Map_delete.
  induction m as [|[k' v'] m IH]; simpl; [reflexivity|].
  destruct (String.eqb k' k); simpl; now rewrite IH.
Qed.

Lemma Map_has_keys (k : string) (m : Storage) :
  Map_has k m = true <-> k ∈ Map_keys m.
Proof.
  unfold Map_has, Map_keys. induction m as [|[k' v'] m IH]; simpl.
  - split; [discriminate | intros H; inversion H].
  - rewrite elem_of_cons, orb_true_iff, IH.
    destruct (String.eqb_spec k' k); split; intros [?|?]; auto;
      try discriminate; congruence.
Qed.

(** With distinct keys, every listed entry is the one [get] finds. *)
Lemma Map_get_entry (k : string) (v : list byte) (m : Storage) :
  NoDup (Map_keys m) -> (k, v) ∈ m -> Map_get k m = Some v.
Proof.
  unfold Map_keys. induction m as [|[k' v'] m IH]; simpl; intros Hnd Hin.
  - inversion Hin.
  - apply NoDup_cons in Hnd as [Hk' Hnd].
    apply elem_of_cons in Hin as [[= <- <-]|Hin].
    + now rewrite String.eqb_refl.
    + destruct (String.eqb_spec k' k) as [->|_]; [|now apply IH].
      exfalso. apply Hk'. apply list_elem_of_In, in_map_iff.
      exists (k, v). split; [reflexivity | now apply list_elem_of_In].
Qed.

Lemma startsWith_empty (k : string) : startsWith k "" = true.
Proof. now destruct k. Qed.

Lemma startsWith_app (p rest : string) : startsWith (p +:+ rest) p = true.
Proof.
  unfold startsWith. induction p as [|c p IH]; simpl.
  - now destruct rest.
  - destruct (ascii_dec c c); [exact IH | contradiction].
Qed.

End S3MockFacts.

(** ** Block store on the in-memory client *)

Section MockStore.

Variable unint8arrayFromString : string -> list byte.

Lemma has_on_mock (store : S3Blockstore S3Mock.Storage) (key : CID)
    (options : option AbortOptions) (m : S3Mock.Storage) :
  s3 store = S3Mock.s3Mock ->
  has store key options m = (Ok (S3Mock.Map_has (objectKey store key) m), m).
Proof.
  intros Hs. unfold has. rewrite Hs. simpl.
  now destruct (S3Mock.Map_has (objectKey store key) m).
Qed.

Lemma get_on_mock (store : S3Blockstore S3Mock.Storage) (key : CID)
    (options : option AbortOptions) (m : S3Mock.Storage) :
  s3 store = S3Mock.s3Mock ->
  get unint8arrayFromString store key options m
  = (match S3Mock.Map_get (objectKey store key) m with
     | Some v => Ok v
     | None => Throw Sample.mock_NotFound
     end, m).
Proof.
  intros Hs. unfold get. rewrite Hs. simpl.
  destruct (S3Mock.Map_has (objectKey store key) m) eqn:Hh; simpl.
  - apply S3MockFacts.Map_has_get in Hh as [v ->]. reflexivity.
  - apply S3MockFacts.Map_get_absent in Hh as ->. reflexivity.
Qed.

Lemma put_on_mock (store : S3Blockstore S3Mock.Storage) (key : CID)
    (val : list byte) (options : option AbortOptions) (m : S3Mock.Storage) :
  s3 store = S3Mock.s3Mock ->
  put store key val options m
  = (Ok key, S3Mock.Map_set (objectKey store key) val m).
Proof. intros Hs. unfold put. now rewrite Hs. Qed.

Lemma delete_on_mock (store : S3Blockstore S3Mock.Storage) (key : CID)
    (options : option AbortOptions) (m : S3Mock.Storage) :
  s3 store = S3Mock.s3Mock ->
  delete store key options m
  = (Ok tt, S3Mock.Map_delete (objectKey store key) m).
Proof. intros Hs. unfold delete. now rewrite Hs. Qed.

End MockStore.

(** X7.  On the in-memory client [has] and [get] report what is stored
    under the key of the identifier and change nothing: [has] returns
    whether the key is stored; [get] returns the stored bytes, and reports
    [NotFound], wrapping the client's 404 error, when the key is not
    stored. *)
Theorem mock_reads_reflect_storage
    (unint8arrayFromString : string -> list byte)
    (store : S3Blockstore S3Mock.Storage) (key : CID)
    (options : option AbortOptions) (m : S3Mock.Storage) :
  s3 store = S3Mock.s3Mock ->
  has store key options m = (Ok (S3Mock.Map_has (objectKey store key) m), m)
  /\ get unint8arrayFromString store key options m
     = (match S3Mock.Map_get (objectKey store key) m with
        | Some v => Ok v
        | None => Throw Sample.mock_NotFound
        end, m)
  /\ (S3Mock.Map_has (objectKey store key) m = false ->
      has store key options m = (Ok false, m) /\
      get unint8arrayFromString store key options m
      = (Throw Sample.mock_NotFound, m)).
Proof.
  intros Hs.
  pose proof (has_on_mock store key options m Hs) as Hh.
  pose proof (get_on_mock unint8arrayFromString store key options m Hs) as Hg.
  split; [exact Hh|]. split; [exact Hg|].
  intros Habs. rewrite Hh, Hg, Habs.
  apply S3MockFacts.Map_get_absent in Habs as ->. split; reflexivity.
Qed.

Lemma mock_reads_reflect_storage_witness :
  has (Sample.store_on S3Mock.s3Mock false) Sample.cid_v0 None [] = (Ok false, [])
  /\
  get Sample.fromString (Sample.store_on S3Mock.s3Mock false) Sample.cid_v0
    None []
  = (Throw Sample.mock_NotFound, []).
Proof.
  destruct (mock_reads_reflect_storage Sample.fromString
              (Sample.store_on S3Mock.s3Mock false) Sample.cid_v0 None []
              eq_refl) as (_ & _ & Habs).
  exact (Habs eq_refl).
Defined.

(** X8.  Put/get consistency on the in-memory client.  [put] succeeds;
    afterwards [get] of the identifier returns exactly the bytes written
    and [has] returns true, and so they do for every identifier with the
    same object key; what is read for identifiers with another object key
    is as before.  A [put] to a stored key keeps the keys as they were, a
    [put] to a new key adds it after the others. *)
Theorem put_then_read_on_mock
    (unint8arrayFromString : string -> list byte)
    (store : S3Blockstore S3Mock.Storage) (key other : CID)
    (val : list byte) (options options' : option AbortOptions)
    (m : S3Mock.Storage) :
  s3 store = S3Mock.s3Mock ->
  let m' := S3Mock.Map_set (objectKey store key) val m in
  put store key val options m = (Ok key, m')
  /\ get unint8arrayFromString store key options' m' = (Ok val, m')
  /\ has store key options' m' = (Ok true, m')
  /\ (objectKey store other = objectKey store key ->
      get unint8arrayFromString store other options' m' = (Ok val, m') /\
      has store other options' m' = (Ok true, m'))
  /\ (objectKey store other <> objectKey store key ->
      (get unint8arrayFromString store other options' m').1
      = (get unint8arrayFromString store other options' m).1 /\
      (has store other options' m').1 = (has store other options' m).1)
  /\ S3Mock.Map_keys m'
     = if S3Mock.Map_has (objectKey store key) m then S3Mock.Map_keys m
       else S3Mock.Map_keys m ++ [objectKey store key].
Proof.
  intros Hs m'.
  assert (Hread : forall c, objectKey store c = objectKey store key ->
            get unint8arrayFromString store c options' m' = (Ok val, m') /\
            has store c options' m' = (Ok true, m')).
  { intros c Hc.
    rewrite (get_on_mock _ _ _ _ _ Hs), (has_on_mock _ _ _ _ Hs), Hc.
    unfold m'. rewrite S3MockFacts.Map_get_set_eq.
    split; [reflexivity|]. f_equal. f_equal.
    apply S3MockFacts.Map_has_get. rewrite S3MockFacts.Map_get_set_eq. eauto. }
  split; [now apply put_on_mock|].
  split; [now apply Hread|]. split; [now apply Hread|].
  split; [exact (Hread other)|]. split.
  - intros Hne.
    rewrite !(get_on_mock _ _ _ _ _ Hs), !(has_on_mock _ _ _ _ Hs). simpl.
    assert (E : S3Mock.Map_get (objectKey store other) m'
                = S3Mock.Map_get (objectKey store other) m).
    { apply S3MockFacts.Map_get_set_ne. congruence. }
    rewrite E, (S3MockFacts.Map_has_congr _ _ _ E). split; reflexivity.
  - apply S3MockFacts.Map_keys_set.
Qed.

Lemma put_then_read_on_mock_witness :
  get Sample.fromString (Sample.store_on S3Mock.s3Mock false)
    Sample.cid_v1_raw None
    (put (Sample.store_on S3Mock.s3Mock false) Sample.cid_v0 [x07] None []).2
  = (Ok [x07],
     (put (Sample.store_on S3Mock.s3Mock false) Sample.cid_v0 [x07] None []).2)
  /\
  (has (Sample.store_on S3Mock.s3Mock false) Sample.cid_v0_b None
     (put (Sample.store_on S3Mock.s3Mock false) Sample.cid_v0 [x07] None []).2).1
  = Ok false.
Proof.
  destruct (put_then_read_on_mock Sample.fromString
              (Sample.store_on S3Mock.s3Mock false)
              Sample.cid_v0 Sample.cid_v1_raw [x07] None None [] eq_refl)
    as (_ & _ & _ & Hsame & _).
  destruct (put_then_read_on_mock Sample.fromString
              (Sample.store_on S3Mock.s3Mock false)
              Sample.cid_v0 Sample.cid_v0_b [x07] None None [] eq_refl)
    as (_ & _ & _ & _ & Hother & _).
  split.
  - exact (proj1 (Hsame eq_refl)).
  - refine (eq_trans (proj2 (Hother _)) _);
      [vm_compute; discriminate | reflexivity].
Defined.

(** X9.  After [delete] on the in-memory client the identifier is gone:
    [has] returns false and [get] reports [NotFound], also for every
    identifier with the same object key; what is read for identifiers with
    another object key is as before, and the keys that remain keep their
    order. *)
Theorem delete_then_read_on_mock
    (unint8arrayFromString : string -> list byte)
    (store : S3Blockstore S3Mock.Storage) (key other : CID)
    (options options' : option AbortOptions) (m : S3Mock.Storage) :
  s3 store = S3Mock.s3Mock ->
  let m' := S3Mock.Map_delete (objectKey store key) m in
  delete store key options m = (Ok tt, m')
  /\ (objectKey store other = objectKey store key ->
      has store other options' m' = (Ok false, m') /\
      get unint8arrayFromString store other options' m'
      = (Throw Sample.mock_NotFound, m'))
  /\ (objectKey store other <> objectKey store key ->
      (get unint8arrayFromString store other options' m').1
      = (get unint8arrayFromString store other options' m).1 /\
      (has store other options' m').1 = (has store other options' m).1)
  /\ S3Mock.Map_keys m'
     = List.filter (fun k => negb (String.eqb k (objectKey store key)))
         (S3Mock.Map_keys m).
Proof.
  intros Hs m'.
  split; [now apply delete_on_mock|]. split; [|split].
  - intros Hc.
    rewrite (get_on_mock _ _ _ _ _ Hs), (has_on_mock _ _ _ _ Hs), Hc.
    unfold m'. rewrite S3MockFacts.Map_get_delete_eq.
    split; [|reflexivity]. f_equal. f_equal.
    apply S3MockFacts.Map_get_absent, S3MockFacts.Map_get_delete_eq.
  - intros Hne.
    rewrite !(get_on_mock _ _ _ _ _ Hs), !(has_on_mock _ _ _ _ Hs). simpl.
    assert (E : S3Mock.Map_get (objectKey store other) m'
                = S3Mock.Map_get (objectKey store other) m).
    { apply S3MockFacts.Map_get_delete_ne. congruence. }
    rewrite E, (S3MockFacts.Map_has_congr _ _ _ E). split; reflexivity.
  - apply S3MockFacts.Map_keys_delete.
Qed.

Lemma delete_then_read_on_mock_witness :
  has (Sample.store_on S3Mock.s3Mock false) Sample.cid_v0 None
    (delete (Sample.store_on S3Mock.s3Mock false) Sample.cid_v0 None
       (put (Sample.store_on S3Mock.s3Mock false) Sample.cid_v0 [x07]
          None []).2).2
  = (Ok false, []).
Proof.
  destruct (delete_then_read_on_mock Sample.fromString
              (Sample.store_on S3Mock.s3Mock false)
              Sample.cid_v0 Sample.cid_v0 None None
              (put (Sample.store_on S3Mock.s3Mock false) Sample.cid_v0 [x07]
                 None []).2 eq_refl)
    as (_ & Hgone & _).
  exact (proj1 (Hgone eq_refl)).
Defined.

Section MockEnumeration.

Variable unint8arrayFromString : string -> list byte.

Lemma getAll_contents_on_mock (store : S3Blockstore S3Mock.Storage)
    (options : option AbortOptions) (m : S3Mock.Storage) :
  s3 store = S3Mock.s3Mock ->
  forall ds,
    (getAll_contents unint8arrayFromString store options ds m).2 = m.
Proof.
  intros Hs ds. induction ds as [|d ds IH]; simpl; [reflexivity|].
  destruct (Key d) as [k|]; [|reflexivity].
  destruct (decode (shardingStrategy store) k) as [c|e]; [|reflexivity].
  rewrite (get_on_mock _ _ _ _ _ Hs).
  destruct (S3Mock.Map_get (objectKey store c) m); [|reflexivity].
  destruct (getAll_contents unint8arrayFromString store options ds m)
    as [[ps r] w'']. exact IH.
Qed.

(** One listing request is all [getAll] sends to the in-memory client. *)
Lemma getAll_loop_on_mock (store : S3Blockstore S3Mock.Storage)
    (options : option AbortOptions) (StartAfter : option string)
    (m : S3Mock.Storage) (fuel : nat) :
  s3 store = S3Mock.s3Mock ->
  getAll_loop unint8arrayFromString (S fuel) store options StartAfter m
  = if is_aborted options then ([], Returned, m)
    else
      let r := getAll_contents unint8arrayFromString store options
                 (Sample.listed store m) m in
      (r.1.1, match r.1.2 with Some e => Threw e | None => Returned end, m).
Proof.
  intros Hs. simpl. rewrite Hs. simpl.
  destruct (is_aborted options); [reflexivity|].
  fold (Sample.listed store m).
  pose proof (getAll_contents_on_mock store options m Hs (Sample.listed store m))
    as Hm.
  destruct (getAll_contents unint8arrayFromString store options
              (Sample.listed store m) m) as [[ps r] w'']. simpl in *. subst w''.
  now destruct r.
Qed.

Lemma objectKey_startsWith {W : Type} (store : S3Blockstore W) (c : CID) :
  S3Mock.startsWith (objectKey store c) (default "" (prefix store)) = true.
Proof.
  unfold objectKey, template. destruct (prefix store) as [pre|].
  - apply S3MockFacts.startsWith_app.
  - apply S3MockFacts.startsWith_empty.
Qed.

Lemma getAll_contents_stored (store : S3Blockstore S3Mock.Storage)
    (options : option AbortOptions) (m : S3Mock.Storage) :
  s3 store = S3Mock.s3Mock ->
  forall entries : list (CID * list byte),
    Forall (fun e =>
              decode (shardingStrategy store) (objectKey store e.1) = Ok e.1 /\
              S3Mock.Map_get (objectKey store e.1) m = Some e.2) entries ->
    getAll_contents unint8arrayFromString store options
      (List.map (fun e => {| Key := Some (objectKey store e.1) |}) entries) m
    = (List.map (fun e => {| cid := e.1; block := e.2 |}) entries, None, m).
Proof.
  intros Hs entries. induction entries as [|[c v] es IH]; simpl;
    intros HF; [reflexivity|].
  apply Forall_cons in HF as [[Hd Hg] HF]. simpl in Hd, Hg.
  rewrite Hd, (get_on_mock _ _ _ _ _ Hs), Hg, (IH HF). reflexivity.
Qed.

End MockEnumeration.

(** X10.  Enumeration on the in-memory client is complete and in order.
    Let the store hold, under distinct object keys, exactly the blocks of a
    list of identifiers, each identifier being what the strategy decodes
    from its object key.  Then [getAll], when not cancelled, yields exactly
    these identifiers with their blocks, in the order the objects were
    stored, and ends normally without changing the store. *)
Theorem getAll_enumerates_mock
    (unint8arrayFromString : string -> list byte)
    (store : S3Blockstore S3Mock.Storage)
    (entries : list (CID * list byte))
    (options : option AbortOptions) (fuel : nat) :
  let m := List.map (fun e => (objectKey store e.1, e.2)) entries in
  s3 store = S3Mock.s3Mock ->
  is_aborted options = false ->
  NoDup (S3Mock.Map_keys m) ->
  Forall (fun e =>
            decode (shardingStrategy store) (objectKey store e.1) = Ok e.1)
    entries ->
  getAll unint8arrayFromString (S fuel) store options m
  = (List.map (fun e => {| cid := e.1; block := e.2 |}) entries, Returned, m).
Proof.
  intros m Hs Hab Hnd Hdec. unfold getAll.
  rewrite (getAll_loop_on_mock _ _ _ _ _ _ Hs), Hab.
  assert (Hl : Sample.listed store m
               = List.map (fun e => {| Key := Some (objectKey store e.1) |})
                   entries).
  { unfold Sample.listed, S3Mock.Map_keys, m. rewrite List.map_map. simpl.
    rewrite List.forallb_filter_id, List.map_map; [reflexivity|].
    apply List.forallb_forall. intros k [e [<- _]]%List.in_map_iff.
    apply objectKey_startsWith. }
  rewrite Hl, (getAll_contents_stored _ _ _ _ Hs); [reflexivity|].
  apply Forall_forall. intros e He. split.
  - rewrite Forall_forall in Hdec. now apply Hdec.
  - apply S3MockFacts.Map_get_entry; [exact Hnd|].
    unfold m. apply list_elem_of_In, List.in_map_iff. exists e.
    split; [reflexivity | now apply list_elem_of_In].
Qed.

Lemma getAll_enumerates_mock_witness :
  getAll Sample.fromString 1 (Sample.store_on S3Mock.s3Mock false) None
    (put (Sample.store_on S3Mock.s3Mock false) Sample.cid_v0_b [x02] None
       (put (Sample.store_on S3Mock.s3Mock false) Sample.cid_v0 [x01]
          None []).2).2
  = ([ {| cid := Sample.cid_v0; block := [x01] |};
       {| cid := Sample.cid_v0_b; block := [x02] |} ],
     Returned,
     [ (objectKey (Sample.store_on S3Mock.s3Mock false) Sample.cid_v0, [x01]);
       (objectKey (Sample.store_on S3Mock.s3Mock false) Sample.cid_v0_b,
        [x02]) ]).
Proof.
  apply (getAll_enumerates_mock Sample.fromString
           (Sample.store_on S3Mock.s3Mock false)
           [(Sample.cid_v0, [x01]); (Sample.cid_v0_b, [x02])] None 0).
  - reflexivity.
  - reflexivity.
  - apply (bool_decide_eq_true_1 _). vm_compute. reflexivity.
  - repeat constructor.
Defined.

(** X11.  Against the in-memory client [getAll] always ends after one
    listing request, whatever the store holds: it never stays pending, it
    leaves the store as it was, and every entry it yields is an identifier
    together with the bytes stored under the object key of that
    identifier. *)
Theorem getAll_on_mock_ends
    (unint8arrayFromString : string -> list byte)
    (store : S3Blockstore S3Mock.Storage)
    (options : option AbortOptions) (m : S3Mock.Storage) (fuel : nat) :
  s3 store = S3Mock.s3Mock ->
  getAll unint8arrayFromString (S fuel) store options m
  = getAll unint8arrayFromString 1 store options m
  /\ (getAll unint8arrayFromString (S fuel) store options m).1.2 <> Pending
  /\ (getAll unint8arrayFromString (S fuel) store options m).2 = m
  /\ Forall (fun p => S3Mock.Map_get (objectKey store (cid p)) m
                      = Some (block p))
       (getAll unint8arrayFromString (S fuel) store options m).1.1.
Proof.
  intros Hs. unfold getAll.
  rewrite !(getAll_loop_on_mock _ _ _ _ _ _ Hs).
  split; [reflexivity|].
  destruct (is_aborted options); simpl;
    [split; [discriminate | split; [reflexivity | constructor]]|].
  split; [now destruct (_.1.2)|]. split; [reflexivity|].
  generalize (Sample.listed store m). intros ds.
  induction ds as [|d ds IH]; simpl; [constructor|].
  destruct (Key d) as [k|]; [|constructor].
  destruct (decode (shardingStrategy store) k) as [c|e]; [|constructor].
  rewrite (get_on_mock _ _ _ _ _ Hs).
  destruct (S3Mock.Map_get (objectKey store c) m) as [v|] eqn:Hg;
    [|constructor].
  destruct (getAll_contents unint8arrayFromString store options ds m)
    as [[ps r] w'']. simpl in *. constructor; [exact Hg | exact IH].
Qed.

Lemma getAll_on_mock_ends_witness :
  getAll Sample.fromString 5 (Sample.store_on S3Mock.s3Mock false) None
    [("junk", [x01])]
  = getAll Sample.fromString 1 (Sample.store_on S3Mock.s3Mock false) None
      [("junk", [x01])].
Proof.
  exact (proj1 (getAll_on_mock_ends Sample.fromString
                  (Sample.store_on S3Mock.s3Mock false) None
                  [("junk", [x01])] 4 eq_refl)).
Defined.

(** X12.  Pages that carry nothing to walk.  When [getAll] is not
    cancelled and the first listing answer has no contents field (or is
    null), or names an entry without key first, or says that more follows
    although its contents are empty, [getAll] yields nothing and throws an
    [Error] whose message is empty: the text [Not found] of the error
    raised inside does not reach the caller.  An answer with empty contents
    that does not say that more follows ends the sequence normally with
    no entry. *)
Theorem getAll_page_without_entries {W : Type}
    (unint8arrayFromString : string -> list byte)
    (this : S3Blockstore W) (options : option AbortOptions) (w : W)
    (fuel : nat) :
  is_aborted options = false ->
  let listing :=
    send (s3 this) (ListObjectsV2Command (bucket this) (prefix this) None)
      (signal_of options) w in
  let failed := ([], Threw (Native (new_Error None)), listing.2) in
  (forall data, listing.1 = Resolve data -> data ≫= Contents = None ->
     getAll unint8arrayFromString (S fuel) this options w = failed)
  /\ (forall data ds, listing.1 = Resolve data ->
        data ≫= Contents = Some ({| Key := None |} :: ds) ->
        getAll unint8arrayFromString (S fuel) this options w = failed)
  /\ (forall data, listing.1 = Resolve data ->
        data ≫= Contents = Some [] -> data ≫= IsTruncated = Some true ->
        getAll unint8arrayFromString (S fuel) this options w = failed)
  /\ (forall data, listing.1 = Resolve data ->
        data ≫= Contents = Some [] -> data ≫= IsTruncated <> Some true ->
        getAll unint8arrayFromString (S fuel) this options w
        = ([], Returned, listing.2))
  /\ e_message (new_Error None) = "".
Proof.
  intros Hab listing failed. unfold getAll. simpl. fold listing.
  destruct listing as [[d|err] w']; simpl;
    [rewrite Hab | repeat split; intros; discriminate].
  split; [|split; [|split; [|split]]].
  - intros data [= <-] Hc. now rewrite Hc.
  - intros data ds [= <-] Hc. now rewrite Hc.
  - intros data [= <-] Hc Ht. rewrite Hc. simpl.
    now rewrite bool_decide_eq_true_2.
  - intros data [= <-] Hc Ht. rewrite Hc. simpl.
    now rewrite bool_decide_eq_false_2.
  - reflexivity.
Qed.

Lemma getAll_page_without_entries_witness :
  getAll Sample.fromString 1
    (Sample.store_on (Sample.constant_client (Resolve (Some emptyOutput)))
       false) None tt
  = ([], Threw (Native (new_Error None)), tt)
  /\
  getAll Sample.fromString 1 (Sample.store_on S3Mock.s3Mock false) None []
  = ([], Returned, []).
Proof.
  split.
  - pose proof (getAll_page_without_entries Sample.fromString
                  (Sample.store_on (Sample.constant_client
                                      (Resolve (Some emptyOutput))) false)
                  None tt 0 eq_refl) as H.
    cbv zeta in H. destruct H as (Hnone & _).
    apply (Hnone (Some emptyOutput)); reflexivity.
  - pose proof (getAll_page_without_entries Sample.fromString
                  (Sample.store_on S3Mock.s3Mock false) None [] 0 eq_refl)
      as H.
    cbv zeta in H. destruct H as (_ & _ & _ & Hempty & _).
    eapply Hempty; [reflexivity | reflexivity | discriminate].
Defined.

(** X13.  [open] against the in-memory client always succeeds and leaves
    the store as it was, whatever [createIfMissing] is: the probe either
    finds the empty key or is answered by a 404, and no creation is
    requested. *)
Theorem open_on_mock (store : S3Blockstore S3Mock.Storage)
    (options : option AbortOptions) (m : S3Mock.Storage) :
  s3 store = S3Mock.s3Mock ->
  open store options m = (Ok tt, m).
Proof.
  intros Hs. unfold open. rewrite Hs. simpl.
  now destruct (S3Mock.Map_has "" m).
Qed.

Lemma open_on_mock_witness :
  open (Sample.store_on S3Mock.s3Mock true) None [] = (Ok tt, []).
Proof.
  exact (open_on_mock (Sample.store_on S3Mock.s3Mock true) None [] eq_refl).
Defined.

(** X14.  What [open] sends.  On a client that records its commands,
    [open] sends the head request for the empty key and then at most a
    creation request; it sends the creation request exactly when
    [createIfMissing] is set and the probe was rejected with a status other
    than 404.  With [createIfMissing] false it never requests a
    creation. *)
Theorem open_requests (answer : Command -> Settled (option Output))
    (store : S3Blockstore (list Command)) (options : option AbortOptions)
    (log : list Command) :
  s3 store = Sample.recording answer ->
  let head := HeadObjectCommand (bucket store) "" in
  let create := CreateBucketCommand (bucket store) in
  let sent := (open store options log).2 in
  (sent = log ++ [head] \/ sent = log ++ [head; create])
  /\ (sent = log ++ [head; create] <->
      createIfMissing store = true /\
      exists err, answer head = Reject err /\ e_statusCode err <> Some 404)
  /\ (createIfMissing store = false -> sent = log ++ [head]).
Proof.
  intros Hs head create sent.
  assert (Hne : log ++ [head] <> log ++ [head; create]).
  { intros E. apply List.app_inv_head in E. discriminate E. }
  assert (Hsent : sent = if answer head is Reject err
                         then if negb (statusCode_is err 404)
                              then if createIfMissing store
                                   then log ++ [head; create]
                                   else log ++ [head]
                              else log ++ [head]
                         else log ++ [head]).
  { unfold sent, open. rewrite Hs. simpl. fold head create.
    destruct (answer head) as [d|err]; [reflexivity|].
    destruct (negb (statusCode_is err 404)); [|reflexivity].
    destruct (createIfMissing store); [|reflexivity].
    destruct (answer create); simpl; now rewrite <- app_assoc. }
  rewrite Hsent. clear Hsent sent.
  destruct (answer head) as [d|err].
  { split; [now left|]. split; [|reflexivity].
    split; [intros E; now apply Hne in E | intros (_ & e & He & _)].
    discriminate He. }
  unfold statusCode_is.
  destruct (decide (e_statusCode err = Some 404)) as [H404|H404].
  { rewrite bool_decide_eq_true_2 by assumption. simpl.
    split; [now left|]. split; [|reflexivity].
    split; [intros E; now apply Hne in E | intros (_ & e & [= <-] & Hn)].
    contradiction. }
  rewrite bool_decide_eq_false_2 by assumption. simpl.
  destruct (createIfMissing store).
  - split; [now right|]. split; [|discriminate].
    split; [intros _; split; [reflexivity | eauto] | reflexivity].
  - split; [now left|]. split; [|reflexivity].
    split; [intros E; now apply Hne in E | intros [? _]; discriminate].
Qed.

Lemma open_requests_witness :
  (open (Sample.store_on (Sample.recording
                            (fun _ => Reject Sample.internal500)) false)
     None []).2
  = [HeadObjectCommand "test" ""].
Proof.
  pose proof (open_requests (fun _ => Reject Sample.internal500)
                (Sample.store_on (Sample.recording
                                    (fun _ => Reject Sample.internal500)) false)
                None [] eq_refl) as H.
  cbv zeta in H. destruct H as (_ & _ & Hno).
  exact (Hno eq_refl).
Defined.

(** X15.  [getAll] trusts the flag that more follows.  If the client
    answers every listing request, whatever key it is to start after, with
    the same page that has entries and says that more follows, and walking
    that page succeeds, then [getAll] never ends: after any number of
    listing requests it is still pending and has yielded the entries of
    the page once per request. *)
Theorem getAll_endless_truncation {W : Type}
    (unint8arrayFromString : string -> list byte)
    (this : S3Blockstore W) (options : option AbortOptions) (w : W)
    (page : Output) (d : Item) (ds : list Item) (ps : list Pair) :
  is_aborted options = false ->
  (forall StartAfter,
     send (s3 this)
       (ListObjectsV2Command (bucket this) (prefix this) StartAfter)
       (signal_of options) w = (Resolve (Some page), w)) ->
  Contents page = Some (d :: ds) ->
  IsTruncated page = Some true ->
  getAll_contents unint8arrayFromString this options (d :: ds) w
  = (ps, None, w) ->
  forall fuel,
    getAll unint8arrayFromString fuel this options w
    = (concat (replicate fuel ps), Pending, w).
Proof.
  intros Hab Hlist Hc Ht Hwalk fuel. unfold getAll.
  assert (Hloop : forall StartAfter,
            getAll_loop unint8arrayFromString fuel this options StartAfter w
            = (concat (replicate fuel ps), Pending, w)).
  { induction fuel as [|fuel IH]; intros sa; [reflexivity|].
    cbn [getAll_loop]. rewrite Hlist, Hab. cbn [mbind option_bind].
    rewrite Hc, Hwalk, Ht, bool_decide_eq_true_2 by reflexivity.
    destruct (last (d :: ds)) as [l|] eqn:Hl.
    - now rewrite IH.
    - now apply last_None in Hl. }
  now rewrite Hloop.
Qed.

Lemma getAll_endless_truncation_witness :
  getAll Sample.fromString 3
    (Sample.store_on (Sample.constant_client Sample.endless_page) false)
    None tt
  = ([ {| cid := Sample.cid_v0; block := [x01] |};
       {| cid := Sample.cid_v0; block := [x01] |};
       {| cid := Sample.cid_v0; block := [x01] |} ], Pending, tt).
Proof.
  exact (getAll_endless_truncation Sample.fromString
           (Sample.store_on (Sample.constant_client Sample.endless_page) false)
           None tt _ _ _ _ eq_refl (fun _ => eq_refl) eq_refl eq_refl eq_refl
           3).
Defined.

(** ** Walking pages *)

Section Walking.

Context {W : Type}.
Variable unint8arrayFromString : string -> list byte.

(** Walking a list of entries is walking its front and then, unless that
    failed, its back. *)
Lemma getAll_contents_app (this : S3Blockstore W)
    (options : option AbortOptions) (ds1 ds2 : list Item) (w : W) :
  getAll_contents unint8arrayFromString this options (ds1 ++ ds2) w
  = match getAll_contents unint8arrayFromString this options ds1 w with
    | (ps, Some e, w') => (ps, Some e, w')
    | (ps, None, w') =>
        let '(ps', r, w'') :=
          getAll_contents unint8arrayFromString this options ds2 w' in
        (ps ++ ps', r, w'')
    end.
Proof.
  revert w. induction ds1 as [|d ds1 IH]; intros w; simpl.
  - now destruct (getAll_contents _ _ _ ds2 w) as [[ps r] w''].
  - destruct (Key d) as [k|]; [|reflexivity].
    destruct (decode (shardingStrategy this) k) as [c|e]; [|reflexivity].
    destruct (get unint8arrayFromString this c options w) as [[b|e] w'];
      [|reflexivity].
    rewrite IH.
    destruct (getAll_contents _ _ _ ds1 w') as [[ps [e|]] w'']; [reflexivity|].
    now destruct (getAll_contents _ _ _ ds2 w'') as [[ps' r] w'''].
Qed.

End Walking.

(** X16.  Two pages.  When the first listing answer says that more
    follows and walking its entries succeeds, [getAll] asks for the page
    that starts after the key of the last entry of the first one; when that
    page does not say that more follows and walking it succeeds too,
    [getAll] has yielded the entries of the first page followed by those of
    the second, each page in the order the store gave, and ends
    normally. *)
Theorem getAll_two_pages {W : Type}
    (unint8arrayFromString : string -> list byte)
    (this : S3Blockstore W) (options : option AbortOptions)
    (w w1 w1' w2 w2' : W) (page1 page2 : Output)
    (ds1 ds2 : list Item) (last1 : Item) (ps1 ps2 : list Pair)
    (fuel : nat) :
  is_aborted options = false ->
  send (s3 this) (ListObjectsV2Command (bucket this) (prefix this) None)
    (signal_of options) w = (Resolve (Some page1), w1) ->
  Contents page1 = Some ds1 ->
  IsTruncated page1 = Some true ->
  last ds1 = Some last1 ->
  getAll_contents unint8arrayFromString this options ds1 w1
  = (ps1, None, w1') ->
  send (s3 this)
    (ListObjectsV2Command (bucket this) (prefix this) (Key last1))
    (signal_of options) w1' = (Resolve (Some page2), w2) ->
  Contents page2 = Some ds2 ->
  IsTruncated page2 <> Some true ->
  getAll_contents unint8arrayFromString this options ds2 w2
  = (ps2, None, w2') ->
  getAll unint8arrayFromString (S (S fuel)) this options w
  = (ps1 ++ ps2, Returned, w2').
Proof.
  intros Hab Hl1 Hc1 Ht1 Hlast Hw1 Hl2 Hc2 Ht2 Hw2. unfold getAll.
  cbn [getAll_loop]. rewrite Hl1, Hab. cbn [mbind option_bind].
  rewrite Hc1, Hw1, Ht1, bool_decide_eq_true_2, Hlast by reflexivity.
  rewrite Hl2. cbn [mbind option_bind].
  rewrite Hc2, Hw2, bool_decide_eq_false_2 by assumption.
  reflexivity.
Qed.

Lemma getAll_two_pages_witness :
  getAll Sample.fromString 2
    (Sample.store_on (Sample.scripted Sample.two_pages) false) None tt
  = ([ {| cid := Sample.cid_v0; block := [x01] |};
       {| cid := Sample.cid_v0_b; block := [x01] |} ], Returned, tt).
Proof.
  refine (getAll_two_pages Sample.fromString
            (Sample.store_on (Sample.scripted Sample.two_pages) false)
            None tt tt tt tt tt _ _ _ _ _ _ _ 0
            eq_refl eq_refl eq_refl eq_refl eq_refl eq_refl eq_refl eq_refl
            _ eq_refl).
  discriminate.
Defined.

(** X17.  [getAll] stops at the first entry it cannot deliver and skips
    nothing.  When walking the entries of the first page has succeeded up
    to an entry that has no key, or whose key the strategy does not decode,
    or whose block [get] fails to read, [getAll] has yielded the entries
    before it, yields none of those after it, and throws a new [Error]
    made from the code of the failure. *)
Theorem getAll_stops_at_first_failure {W : Type}
    (unint8arrayFromString : string -> list byte)
    (this : S3Blockstore W) (options : option AbortOptions)
    (w w0 w1 : W) (data : option Output) (before after : list Item)
    (d : Item) (ps : list Pair) (fuel : nat) :
  is_aborted options = false ->
  send (s3 this) (ListObjectsV2Command (bucket this) (prefix this) None)
    (signal_of options) w = (Resolve data, w0) ->
  data ≫= Contents = Some (before ++ d :: after) ->
  getAll_contents unint8arrayFromString this options before w0
  = (ps, None, w1) ->
  (Key d = None ->
   getAll unint8arrayFromString (S fuel) this options w
   = (ps, Threw (Native (new_Error None)), w1))
  /\ (forall k e, Key d = Some k ->
        decode (shardingStrategy this) k = Throw e ->
        getAll unint8arrayFromString (S fuel) this options w
        = (ps, Threw (Native (new_Error (Exn_code e))), w1))
  /\ (forall k c e w2, Key d = Some k ->
        decode (shardingStrategy this) k = Ok c ->
        get unint8arrayFromString this c options w1 = (Throw e, w2) ->
        getAll unint8arrayFromString (S fuel) this options w
        = (ps, Threw (Native (new_Error (Exn_code e))), w2)).
Proof.
  intros Hab Hl Hc Hw. unfold getAll. cbn [getAll_loop].
  rewrite Hl, Hab, Hc, getAll_contents_app, Hw. cbn [getAll_contents].
  split; [|split].
  - intros ->. now rewrite app_nil_r.
  - intros k e -> ->. now rewrite app_nil_r.
  - intros k c e w2 -> -> ->. now rewrite app_nil_r.
Qed.

Lemma getAll_stops_at_first_failure_witness :
  getAll Sample.fromString 1 (Sample.store_on S3Mock.s3Mock false) None
    [ (objectKey (Sample.store_on S3Mock.s3Mock false) Sample.cid_v0, [x01]);
      ("junk", [x02]);
      (objectKey (Sample.store_on S3Mock.s3Mock false) Sample.cid_v0_b,
       [x03]) ]
  = ([ {| cid := Sample.cid_v0; block := [x01] |} ],
     Threw (Native (new_Error None)),
     [ (objectKey (Sample.store_on S3Mock.s3Mock false) Sample.cid_v0, [x01]);
       ("junk", [x02]);
       (objectKey (Sample.store_on S3Mock.s3Mock false) Sample.cid_v0_b,
        [x03]) ]).
Proof.
  set (store := Sample.store_on S3Mock.s3Mock false).
  set (m := [ (objectKey store Sample.cid_v0, [x01]); ("junk", [x02]);
              (objectKey store Sample.cid_v0_b, [x03]) ]).
  destruct (getAll_stops_at_first_failure Sample.fromString store None
              m m m
              (Some {| Body := None;
                       Contents := Some (Sample.listed store m);
                       IsTruncated := None |})
              [ {| Key := Some (objectKey store Sample.cid_v0) |} ]
              [ {| Key := Some (objectKey store Sample.cid_v0_b) |} ]
              {| Key := Some "junk" |}
              [ {| cid := Sample.cid_v0; block := [x01] |} ] 0
              eq_refl eq_refl eq_refl eq_refl) as (_ & Hdec & _).
  exact (eq_trans (Hdec "junk" _ eq_refl eq_refl) eq_refl).
Defined.

(** X18.  The constructor.  It fails exactly when the client or the
    bucket is missing.  The store it makes uses the client and the bucket
    it was given, does not create the container unless told to, writes the
    objects of a store with prefix [p] under [p/] followed by the path and
    those of a store without prefix under the text [null] followed by the
    path, and, when no strategy is given, uses the prefix-shard strategy
    with extension [.data], [prefixLength] 2 and the default codec. *)
Theorem constructor_checks_and_defaults {W : Type}
    (CID_decode : list byte -> Result CID) (base32upper : MultibaseCodec)
    (client : option (S3 W)) (name : option string)
    (init : option S3BlockstoreInit) :
  let made := S3Blockstore_new CID_decode base32upper client name init in
  let default_strategy := mkNextToLast ".data" 2 base32upper in
  ((exists store, made = Ok store) <-> is_Some client /\ is_Some name)
  /\ forall store, made = Ok store ->
       client = Some (s3 store) /\ name = Some (bucket store)
       /\ createIfMissing store = default false (init ≫= init_createIfMissing)
       /\ (forall key,
             objectKey store key
             = match init ≫= init_prefix with
               | Some p => p +:+ "/" +:+ encode (shardingStrategy store) key
               | None => "null" +:+ encode (shardingStrategy store) key
               end)
       /\ (init ≫= init_shardingStrategy = None ->
           forall key str,
             encode (shardingStrategy store) key
             = NextToLast_encode default_strategy key /\
             decode (shardingStrategy store) str
             = NextToLast_decode CID_decode default_strategy str).
Proof.
  intros made default_strategy. unfold made, S3Blockstore_new.
  destruct client as [c|]; [destruct name as [b|]|].
  - split; [split; eauto|].
    intros store [= <-]. simpl.
    split; [reflexivity|]. split; [reflexivity|]. split; [reflexivity|].
    split.
    + intros key. unfold objectKey. simpl.
      destruct (init ≫= init_prefix) as [p|]; simpl; [|reflexivity].
      apply JsStringMore.append_assoc.
    + intros Hs key str. rewrite Hs. simpl. split; reflexivity.
  - split; [|intros; discriminate].
    split; [intros [? ?]; discriminate | intros [_ [? ?]]; discriminate].
  - split; [|intros; discriminate].
    split; [intros [? ?]; discriminate | intros [[? ?] _]; discriminate].
Qed.

Lemma constructor_checks_and_defaults_witness :
  exists store,
    S3Blockstore_new Sample.sample_CID_decode Sample.latin1
      (Some S3Mock.s3Mock) (Some "bucket") None = Ok store
    /\ objectKey store Sample.cid_ABCDEFGH = "nullGH/ABCDEFGH.data".
Proof.
  pose proof (constructor_checks_and_defaults Sample.sample_CID_decode
                Sample.latin1 (Some S3Mock.s3Mock) (Some "bucket") None) as H.
  cbv zeta in H. destruct H as (Hok & Hstore).
  destruct (proj2 Hok (conj (mk_is_Some _ _ eq_refl) (mk_is_Some _ _ eq_refl)))
    as [store Hs].
  exists store. split; [exact Hs|].
  destruct (Hstore store Hs) as (_ & _ & _ & Hkey & Hdef).
  rewrite Hkey. simpl. now rewrite (proj1 (Hdef eq_refl Sample.cid_ABCDEFGH "")).
Defined.

(** X19.  The in-memory client keeps its keys distinct under every
    command, and a listing names exactly the stored keys that start with
    the requested prefix, each once, never says that more follows, and
    changes nothing. *)
Theorem mock_listing_and_keys (command : Command)
    (sig : option AbortSignal) (m : S3Mock.Storage)
    (Bucket : string) (Prefix StartAfter : option string) :
  NoDup (S3Mock.Map_keys m) ->
  NoDup (S3Mock.Map_keys (S3Mock.mock_send command sig m).2)
  /\ exists items,
       S3Mock.mock_send (ListObjectsV2Command Bucket Prefix StartAfter) sig m
       = (Resolve (Some {| Body := None; Contents := Some items;
                           IsTruncated := None |}), m)
       /\ NoDup items
       /\ forall k, {| Key := Some k |} ∈ items <->
                    k ∈ S3Mock.Map_keys m /\
                    S3Mock.startsWith k (default "" Prefix) = true.
Proof.
  intros Hnd. split.
  - destruct command as [b k v|b|b k|b k|b k|b p sa]; simpl; try exact Hnd.
    + rewrite S3MockFacts.Map_keys_set.
      destruct (S3Mock.Map_has k m) eqn:Hh; [exact Hnd|].
      apply NoDup_app. split; [exact Hnd|]. split; [|apply NoDup_singleton].
      intros x Hx Hk. apply list_elem_of_singleton in Hk as ->.
      apply S3MockFacts.Map_has_keys in Hx. congruence.
    + now destruct (S3Mock.Map_has k m).
    + now destruct (S3Mock.Map_has k m).
    + rewrite S3MockFacts.Map_keys_delete.
      now apply NoDup_ListNoDup, List.NoDup_filter, NoDup_ListNoDup.
  - eexists. split; [reflexivity|]. split.
    + apply NoDup_ListNoDup, Finite.Injective_map_NoDup;
        [|now apply List.NoDup_filter, NoDup_ListNoDup].
      intros a b E. now injection E.
    + intros k. rewrite list_elem_of_In, List.in_map_iff. split.
      * intros (k' & [= ->] & Hin). apply List.filter_In in Hin as [Hin Hp].
        split; [now apply list_elem_of_In | exact Hp].
      * intros [Hin Hp]. exists k. split; [reflexivity|].
        apply List.filter_In. split; [now apply list_elem_of_In | exact Hp].
Qed.

Lemma mock_listing_and_keys_witness :
  NoDup (S3Mock.Map_keys
           (S3Mock.mock_send (PutObjectCommand "b" "k" [x02]) None
              [("k", [x01])]).2).
Proof.
  refine (proj1 (mock_listing_and_keys (PutObjectCommand "b" "k" [x02]) None
                   [("k", [x01])] "b" None None _)).
  apply (bool_decide_eq_true_1 _). vm_compute. reflexivity.
Defined.

(** X20.  What [get] makes of the response.  When the read is answered,
    [get] returns the bytes of the body whatever its transport shape: the
    bytes themselves, the bytes of the text, the buffer of the blob, or
    what draining the stream gives.  An answer without body, or a null
    answer, makes [get] throw a plain error, never [NotFound] and never a
    success; a stream that fails while it is drained is treated like a
    failed request. *)
Theorem get_normalises_the_body {W : Type}
    (unint8arrayFromString : string -> list byte)
    (this : S3Blockstore W) (key : CID) (options : option AbortOptions)
    (w w' : W) (data : option Output) :
  send (s3 this) (GetObjectCommand (bucket this) (objectKey this key))
    (signal_of options) w = (Resolve data, w') ->
  let result := get unint8arrayFromString this key options w in
  (forall b, data ≫= Body = Some (BodyUint8Array b) -> result = (Ok b, w'))
  /\ (forall s, data ≫= Body = Some (BodyString s) ->
        result = (Ok (unint8arrayFromString s), w'))
  /\ (forall buf, data ≫= Body = Some (BodyBlob buf) -> result = (Ok buf, w'))
  /\ (forall b, data ≫= Body = Some (BodyStream (inr b)) ->
        result = (Ok b, w'))
  /\ (forall err, data ≫= Body = Some (BodyStream (inl err)) ->
        result = (Throw (get_catch err), w'))
  /\ (data ≫= Body = None ->
      exists err, result = (Throw (Native err), w') /\
                  e_statusCode err = None /\
                  (is_Some data -> e_message err = "Response had no body")).
Proof.
  intros Hs result. unfold result, get. rewrite Hs.
  destruct data as [d|]; simpl.
  - destruct (Body d) as [[b|s|buf|[err|b]]|]; simpl;
      repeat split; intros; try discriminate; try congruence.
    eexists. repeat split.
  - repeat split; intros; try discriminate.
    exists TypeError. repeat split. intros [? ?]. discriminate.
Qed.

Lemma get_normalises_the_body_witness :
  get Sample.fromString
    (Sample.store_on (Sample.constant_client
                        (Resolve (Some {| Body := Some (BodyString "hi");
                                          Contents := None;
                                          IsTruncated := None |}))) false)
    Sample.cid_v0 None tt
  = (Ok [x68; x69], tt).
Proof.
  destruct (get_normalises_the_body Sample.fromString
              (Sample.store_on (Sample.constant_client
                        (Resolve (Some {| Body := Some (BodyString "hi");
                                          Contents := None;
                                          IsTruncated := None |}))) false)
              Sample.cid_v0 None tt tt _ eq_refl) as (_ & Hstr & _).
  exact (Hstr "hi" eq_refl).
Defined.
